(** * Header.tsx: the notification header of the Grievance Portal

    A shallow embedding of [src/components/Header.tsx].  The component is a
    React function component: local state ([useState]), one effect
    ([useEffect]) and four handlers, three of them [async].  The embedding
    keeps that shape:

    - asynchronous functions are programs of a small free monad [Prog],
      suspended at each [await] and resumed by the event loop;
    - the component instance, the supabase client (its open realtime
      channels), the router and the console are fields of one [World];
    - React and the environment drive the world through [Event]s.

    Identifiers are integers ([Z]), texts and timestamps are strings.  The
    auth provider, the data store and the router are outside the file:
    their calls are recorded, and their answers are events. *)

From stdpp Require Import gmap strings list fin_maps.
From Stdlib Require Import ZArith Sorted.

Local Open Scope Z_scope.
Local Open Scope string_scope.
Local Open Scope list_scope.

(** ** Data model *)

(** [interface Notification] (lines 8-14). *)
Record Notification := {
  id : Z;
  message : string;
  grievance_id : Z;
  is_read : bool;
  created_at : string;
}.

(** A row of the [notifications] table as the data store sends it: the
    columns of [Notification] and the [user_id] column the queries filter
    on.  [data] and [payload.new] are such rows, typed [Notification] by
    the component. *)
Record Row := {
  user_id : string;
  as_Notification : Notification;
}.

(** [session.user.id]. *)
Record User := { user_ident : string }.
Record Session := { user : User }.

(** The error objects of the supabase client; only [message] is read. *)
Record SbError := { error_message : string }.

(** [role: 'user' | 'employee' | 'admin']. *)
Inductive Role := user_role | employee | admin.

(** A function handed down by the parent.  The component can only call
    it; the call is recorded in the world. *)
Inductive ParentFn := parent_fn (name : nat).

(** An array prop: React compares effect dependencies with [Object.is],
    that is by reference for arrays. *)
Record JsArray := { ref : nat; items : list Notification }.

(** [interface HeaderProps] (lines 16-22); [?] is [option]. *)
Record HeaderProps := {
  role : Role;
  notifications : option JsArray;
  toggleNotifications : option ParentFn;
  markNotificationAsRead : option ParentFn;
  showNotifications : option bool;
}.

(** ** The query builder of the data store client *)

Inductive Value := VNull | VBool (b : bool) | VNum (n : Z) | VStr (s : string).

Record SelectQuery := {
  q_table : string;
  q_columns : string;
  q_eq : list (string * Value);
  q_order : option (string * bool);  (* column, ascending *)
  q_limit : option nat;
}.

Record UpdateQuery := {
  u_table : string;
  u_set : list (string * Value);
  u_eq : list (string * Value);
}.

Module Query.
Definition from (table : string) : string := table.

Definition select (columns : string) (table : string) : SelectQuery :=
  {| q_table := table; q_columns := columns; q_eq := []; q_order := None;
     q_limit := None |}.

Definition eq (column : string) (v : Value) (q : SelectQuery) : SelectQuery :=
  {| q_table := q_table q; q_columns := q_columns q;
     q_eq := q_eq q ++ [(column, v)]; q_order := q_order q;
     q_limit := q_limit q |}.

Definition order (column : string) (ascending : bool) (q : SelectQuery)
  : SelectQuery :=
  {| q_table := q_table q; q_columns := q_columns q; q_eq := q_eq q;
     q_order := Some (column, ascending); q_limit := q_limit q |}.

Definition limit (n : nat) (q : SelectQuery) : SelectQuery :=
  {| q_table := q_table q; q_columns := q_columns q; q_eq := q_eq q;
     q_order := q_order q; q_limit := Some n |}.

Definition update (fields : list (string * Value)) (table : string)
  : UpdateQuery :=
  {| u_table := table; u_set := fields; u_eq := [] |}.

Definition eq_u (column : string) (v : Value) (u : UpdateQuery) : UpdateQuery :=
  {| u_table := u_table u; u_set := u_set u; u_eq := u_eq u ++ [(column, v)] |}.
End Query.

(** Method chaining: [x |> f] is [x.f(..)]. *)
Notation "x |> f" := (f x) (at level 45, left associativity, only parsing).

(** ** The data store, as far as the component relies on it

    The store is an external service.  What a select answers is fixed by
    the meaning of the builder calls: [eq] keeps the rows whose column has
    the given value, [order] sorts on a column, [limit] keeps a prefix.
    Timestamps are compared as the ISO strings the store sends. *)

Definition column (name : string) (r : Row) : Value :=
  if decide (name = "id") then VNum (id (as_Notification r))
  else if decide (name = "message") then VStr (message (as_Notification r))
  else if decide (name = "grievance_id") then VNum (grievance_id (as_Notification r))
  else if decide (name = "is_read") then VBool (is_read (as_Notification r))
  else if decide (name = "created_at") then VStr (created_at (as_Notification r))
  else if decide (name = "user_id") then VStr (user_id r)
  else VNull.

Definition value_eqb (a b : Value) : bool :=
  match a, b with
  | VNull, VNull => true
  | VBool x, VBool y => Bool.eqb x y
  | VNum x, VNum y => Z.eqb x y
  | VStr x, VStr y => String.eqb x y
  | _, _ => false
  end.

Definition value_rank (a : Value) : nat :=
  match a with VNull => 0 | VBool _ => 1 | VNum _ => 2 | VStr _ => 3 end%nat.

Definition value_leb (a b : Value) : bool :=
  match a, b with
  | VBool x, VBool y => implb x y
  | VNum x, VNum y => Z.leb x y
  | VStr x, VStr y => String.leb x y
  | _, _ => Nat.leb (value_rank a) (value_rank b)
  end.

Definition matches (conds : list (string * Value)) (r : Row) : bool :=
  forallb (fun c => value_eqb (column (fst c) r) (snd c)) conds.

(** [before ord r1 r2]: [r1] may come before [r2] under the ordering. *)
Definition before (ord : string * bool) (r1 r2 : Row) : bool :=
  if snd ord then value_leb (column (fst ord) r1) (column (fst ord) r2)
  else value_leb (column (fst ord) r2) (column (fst ord) r1).

Fixpoint insert_sorted (ord : string * bool) (r : Row) (l : list Row) : list Row :=
  match l with
  | [] => [r]
  | r' :: l' =>
      if before ord r r' then r :: l else r' :: insert_sorted ord r l'
  end.

Definition sort_rows (ord : string * bool) (l : list Row) : list Row :=
  foldr (insert_sorted ord) [] l.

Definition run_query (q : SelectQuery) (table : list Row) : list Row :=
  let kept := List.filter (matches (q_eq q)) table in
  let sorted := match q_order q with
                | Some ord => sort_rows ord kept
                | None => kept
                end in
  match q_limit q with
  | Some n => take n sorted
  | None => sorted
  end.

(** ** Asynchronous programs *)

(** What an [await] can wait for. *)
Inductive Req :=
| getSession                                   (* supabase.auth.getSession() *)
| run_select (q : SelectQuery)                 (* await supabase.from(..).select(..).. *)
| run_update (u : UpdateQuery)                 (* await supabase.from(..).update(..).. *)
| signOut                                      (* supabase.auth.signOut() *)
| external_markNotificationAsRead (fn : ParentFn) (notificationId : Z).

(** [{ data, error }] of a select. *)
Record SelectResult := { data : option (list Row); error : option SbError }.

Definition resp_type (r : Req) : Type :=
  match r with
  | getSession => option Session
  | run_select _ => SelectResult
  | run_update _ => option SbError
  | signOut => option SbError
  | external_markNotificationAsRead _ _ => unit
  end.

(** Synchronous calls that change the world. *)
Inductive Act :=
| setLocalNotifications (updater : list Notification -> list Notification)
| setLocalShowNotifications (b : bool)
| console_error (label detail : string)
| router_push (path : string)
| router_refresh
| removeChannel (channel : nat)
| call_parent (fn : ParentFn).

(** [payload] of a realtime event and the arguments of
    [supabase.channel(topic).on(type, config, callback)]. *)
Record Payload := { new : Row }.

Record ChannelConfig := {
  cfg_event : string;
  cfg_schema : string;
  cfg_table : string;
  cfg_filter : string;
}.

Record Channel := {
  topic : string;
  on_type : string;
  config : ChannelConfig;
  callback : Payload -> list Act;
}.

(** The body of an [async] function: it returns, awaits, performs a
    synchronous call, or subscribes a channel (and gets its handle). *)
Inductive Prog (A : Type) : Type :=
| Ret (a : A)
| Await (r : Req) (k : resp_type r -> Prog A)
| Perform (a : Act) (k : Prog A)
| Subscribe (ch : Channel) (k : nat -> Prog A).

Arguments Ret {A} a.
Arguments Await {A} r k.
Arguments Perform {A} a k.
Arguments Subscribe {A} ch k.

Fixpoint bind {A B} (p : Prog A) (f : A -> Prog B) : Prog B :=
  match p with
  | Ret a => f a
  | Await r k => Await r (fun v => bind (k v) f)
  | Perform a k => Perform a (bind k f)
  | Subscribe ch k => Subscribe ch (fun c => bind (k c) f)
  end.

Definition await (r : Req) : Prog (resp_type r) := Await r Ret.
Definition perform_ (a : Act) : Prog unit := Perform a (Ret tt).
Definition subscribe (ch : Channel) : Prog nat := Subscribe ch Ret.

(** A call whose promise is dropped ([initialize();], an event handler). *)
Definition ignore {A} (p : Prog A) : Prog unit := bind p (fun _ => Ret tt).

Declare Scope prog_scope.
Delimit Scope prog_scope with prog.
Notation "x <- p ;; q" := (bind p (fun x => q))
  (at level 100, p at next level, right associativity) : prog_scope.
Notation "p ;; q" := (bind p (fun _ => q))
  (at level 100, right associativity) : prog_scope.
Local Open Scope prog_scope.

(** ** The component's functions *)

Definition truthy {A} (x : option A) : bool :=
  match x with Some _ => true | None => false end.

(** [data || otherwise]: an array, even an empty one, is truthy. *)
Definition or_else {A} (x : option A) (otherwise : A) : A :=
  match x with Some v => v | None => otherwise end.

(** Lines 75-94. *)
Definition fetchNotifications : Prog unit :=
  session <- await getSession ;;
  match session with
  | None => Ret tt
  | Some session =>
      r <- await (run_select
             (Query.from "notifications"
              |> Query.select "*"
              |> Query.eq "user_id" (VStr (user_ident (user session)))
              |> Query.eq "is_read" (VBool false)
              |> Query.order "created_at" false
              |> Query.limit 10)) ;;
      match error r with
      | Some err =>
          perform_ (console_error "Error fetching notifications:" (error_message err))
      | None =>
          perform_ (setLocalNotifications
                      (fun _ => as_Notification <$> or_else (data r) []))
      end
  end.

(** Lines 47-61: the channel [initialize] subscribes, with the callback
    of lines 57-59. *)
Definition notifications_channel (session : Session) : Channel :=
  {| topic := "notifications";
     on_type := "postgres_changes";
     config := {| cfg_event := "INSERT"; cfg_schema := "public";
                  cfg_table := "notifications";
                  cfg_filter := "user_id=eq." +:+ user_ident (user session) |};
     callback := fun payload =>
       [setLocalNotifications
          (fun prev => as_Notification (new payload) :: prev)] |}.

(** Lines 42-69: the [async] function declared inside the effect.  Its
    result is the cleanup closure of lines 65-67, or [undefined]. *)
Definition initialize : Prog (option (list Act)) :=
  session <- await getSession ;;
  match session with
  | Some session =>
      channel <- subscribe (notifications_channel session) ;;
      fetchNotifications ;;
      Ret (Some [removeChannel channel])
  | None => Ret None
  end.

(** Lines 96-114. *)
Definition handleMarkNotificationAsRead (p : HeaderProps) (notificationId : Z)
  : Prog unit :=
  match markNotificationAsRead p with
  | Some externalMarkNotificationAsRead =>
      await (external_markNotificationAsRead externalMarkNotificationAsRead
               notificationId)
  | None =>
      err <- await (run_update
               (Query.from "notifications"
                |> Query.update [("is_read", VBool true)]
                |> Query.eq_u "id" (VNum notificationId))) ;;
      match err with
      | Some err =>
          perform_ (console_error "Error marking notification as read:"
                      (error_message err))
      | None =>
          perform_ (setLocalNotifications
                      (fun prev =>
                         List.filter (fun notif => negb (Z.eqb (id notif) notificationId))
                                     prev))
      end
  end.

(** Lines 116-121. *)
Definition handleLogout : Prog unit :=
  err <- await signOut ;;
  match err with
  | Some err => perform_ (console_error "Logout error:" (error_message err))
  | None => Ret tt
  end ;;
  perform_ (router_push "/") ;;
  perform_ router_refresh.

(** Lines 123-131; [localShowNotifications] is the value the rendered
    closure holds. *)
Definition handleToggleNotifications (p : HeaderProps)
    (localShowNotifications : bool) : list Act :=
  match toggleNotifications p with
  | Some externalToggleNotifications => [call_parent externalToggleNotifications]
  | None => [setLocalShowNotifications (negb localShowNotifications)]
  end.

(** ** The world *)

Inductive Phase := NotMounted | Mounted | Removed.

Record World := {
  (* the component instance *)
  phase : Phase;
  props : HeaderProps;
  localNotifications : list Notification;
  localShowNotifications : bool;
  (* what the effect callback returned to React: its cleanup, if any *)
  effect_cleanup : option (list Act);
  (* the supabase client: realtime channels that are open *)
  channels : gmap nat Channel;
  next_channel : nat;
  (* the event loop: async calls suspended at an await *)
  tasks : list (option (Prog unit));
  (* what the outside sees *)
  requests : list Req;
  console : list (string * string);
  router : list Act;
  parent_calls : list ParentFn;
}.

Definition init_props : HeaderProps :=
  {| role := user_role; notifications := None; toggleNotifications := None;
     markNotificationAsRead := None; showNotifications := None |}.

Definition init : World :=
  {| phase := NotMounted; props := init_props; localNotifications := [];
     localShowNotifications := false; effect_cleanup := None;
     channels := ∅; next_channel := 0; tasks := [];
     requests := []; console := []; router := []; parent_calls := [] |}.

Definition with_component (ph : Phase) (p : HeaderProps)
    (l : list Notification) (s : bool) (c : option (list Act)) (w : World)
  : World :=
  {| phase := ph; props := p; localNotifications := l;
     localShowNotifications := s; effect_cleanup := c;
     channels := channels w; next_channel := next_channel w; tasks := tasks w;
     requests := requests w; console := console w; router := router w;
     parent_calls := parent_calls w |}.

Definition with_channels (m : gmap nat Channel) (n : nat) (w : World) : World :=
  {| phase := phase w; props := props w;
     localNotifications := localNotifications w;
     localShowNotifications := localShowNotifications w;
     effect_cleanup := effect_cleanup w;
     channels := m; next_channel := n; tasks := tasks w;
     requests := requests w; console := console w; router := router w;
     parent_calls := parent_calls w |}.

Definition with_tasks (t : list (option (Prog unit))) (w : World) : World :=
  {| phase := phase w; props := props w;
     localNotifications := localNotifications w;
     localShowNotifications := localShowNotifications w;
     effect_cleanup := effect_cleanup w;
     channels := channels w; next_channel := next_channel w; tasks := t;
     requests := requests w; console := console w; router := router w;
     parent_calls := parent_calls w |}.

Definition with_outputs (rq : list Req) (c : list (string * string))
    (r : list Act) (pc : list ParentFn) (w : World) : World :=
  {| phase := phase w; props := props w;
     localNotifications := localNotifications w;
     localShowNotifications := localShowNotifications w;
     effect_cleanup := effect_cleanup w;
     channels := channels w; next_channel := next_channel w; tasks := tasks w;
     requests := rq; console := c; router := r; parent_calls := pc |}.

Definition is_mounted (w : World) : bool :=
  match phase w with Mounted => true | _ => false end.

(** A state setter of an instance that is not mounted does nothing. *)
Definition perform (a : Act) (w : World) : World :=
  match a with
  | setLocalNotifications updater =>
      if is_mounted w
      then with_component (phase w) (props w) (updater (localNotifications w))
             (localShowNotifications w) (effect_cleanup w) w
      else w
  | setLocalShowNotifications b =>
      if is_mounted w
      then with_component (phase w) (props w) (localNotifications w) b
             (effect_cleanup w) w
      else w
  | console_error label detail =>
      with_outputs (requests w) (console w ++ [(label, detail)]) (router w)
        (parent_calls w) w
  | router_push _ | router_refresh =>
      with_outputs (requests w) (console w) (router w ++ [a]) (parent_calls w) w
  | removeChannel c => with_channels (delete c (channels w)) (next_channel w) w
  | call_parent fn =>
      with_outputs (requests w) (console w) (router w) (parent_calls w ++ [fn]) w
  end.

Definition perform_all (acts : list Act) (w : World) : World :=
  foldl (fun w a => perform a w) w acts.

Definition open_channel (ch : Channel) (w : World) : World :=
  with_channels (<[next_channel w := ch]> (channels w)) (S (next_channel w)) w.

Definition issue (r : Req) (w : World) : World :=
  with_outputs (requests w ++ [r]) (console w) (router w) (parent_calls w) w.

(** Run a program up to its next [await] (or its end): the synchronous
    calls happen, the request of the [await] is issued, and what is left
    of the program is handed back. *)
Fixpoint exec {A} (p : Prog A) (w : World) : World * Prog A :=
  match p with
  | Ret _ => (w, p)
  | Await r _ => (issue r w, p)
  | Perform a k => exec k (perform a w)
  | Subscribe ch k => exec (k (next_channel w)) (open_channel ch w)
  end.

Definition suspended {A} (p : Prog A) : option (Prog A) :=
  match p with Ret _ => None | _ => Some p end.

(** Call an async function and drop its promise. *)
Definition spawn (p : Prog unit) (w : World) : World :=
  let (w', rest) := exec p w in
  match suspended rest with
  | Some t => with_tasks (tasks w' ++ [Some t]) w'
  | None => w'
  end.

(** What the environment can answer. *)
Inductive Response :=
| session_is (s : option Session)
| rows_of (table : list Row)   (* the select ran on this table content *)
| no_data
| failed (e : SbError)
| ok.

Definition accept (r : Req) (x : Response) : option (resp_type r) :=
  match r return option (resp_type r) with
  | getSession =>
      match x with session_is s => Some s | _ => None end
  | run_select q =>
      match x with
      | rows_of table => Some {| data := Some (run_query q table); error := None |}
      | no_data => Some {| data := None; error := None |}
      | failed e => Some {| data := None; error := Some e |}
      | _ => None
      end
  | run_update _ | signOut =>
      match x with ok => Some None | failed e => Some (Some e) | _ => None end
  | external_markNotificationAsRead _ _ =>
      match x with ok => Some tt | _ => None end
  end.

(** The awaited promise of task [i] settles with [x]. *)
Definition resolve (i : nat) (x : Response) (w : World) : World :=
  match tasks w !! i with
  | Some (Some (Await r k)) =>
      match accept r x with
      | Some v =>
          let (w', rest) := exec (k v) w in
          with_tasks (<[i := suspended rest]> (tasks w')) w'
      | None => w
      end
  | _ => w
  end.

(** Names for suspended calls.  [after p x] is what is left of [p],
    suspended at an [await], once the awaited promise settles with [x];
    [initialize_awaits channel fetch] is [initialize] suspended at line 63
    ([await fetchNotifications()]) holding [channel], while the call of
    [fetchNotifications] has come as far as [fetch]. *)
Definition after {A} (p : Prog A) (x : Response) : Prog A :=
  match p with
  | Await r k => match accept r x with Some v => k v | None => p end
  | _ => p
  end.

Definition initialize_awaits (channel : nat) (fetch : Prog unit) : Prog unit :=
  ignore (fetch ;; Ret (Some [removeChannel channel])).

(** ** Rendering (lines 36-37 and 133-195) *)

(** [externalNotifications || localNotifications]. *)
Definition shown_notifications (p : HeaderProps) (local : list Notification)
  : list Notification :=
  match notifications p with
  | Some external => items external
  | None => local
  end.

(** [typeof externalShowNotifications !== 'undefined' ? .. : ..]. *)
Definition shown_showNotifications (p : HeaderProps) (local : bool) : bool :=
  match showNotifications p with
  | Some external => external
  | None => local
  end.

Record View := {
  home_href : string;
  profile_link : bool;
  badge : option nat;                       (* the red counter, when drawn *)
  dropdown : option (list Notification);    (* the open list, when drawn *)
}.

Definition role_name (r : Role) : string :=
  match r with user_role => "user" | employee => "employee" | admin => "admin" end.

Definition render (p : HeaderProps) (local : list Notification) (show : bool)
  : View :=
  let notifications := shown_notifications p local in
  let showNotifications := shown_showNotifications p show in
  {| home_href := "/dashboard/" +:+ role_name (role p);
     profile_link := match role p with employee => true | _ => false end;
     badge := if (0 <? length notifications)%nat
              then Some (length notifications) else None;
     dropdown := if showNotifications then Some notifications else None |}.

Definition view (w : World) : View :=
  render (props w) (localNotifications w) (localShowNotifications w).

(** ** The effect (lines 39-73) and the life cycle *)

(** The callback given to [useEffect]: it calls [initialize] without
    awaiting it and has no [return] of its own, so React receives
    [undefined] as cleanup whatever [initialize] resolves to. *)
Definition Header_effect (p : HeaderProps) (w : World)
  : World * option (list Act) :=
  if negb (truthy (notifications p))
  then (spawn (ignore initialize) w, None)
  else (w, None).

(** [Object.is] on the dependency [externalNotifications]. *)
Definition Object_is (a b : option JsArray) : bool :=
  match a, b with
  | None, None => true
  | Some x, Some y => Nat.eqb (ref x) (ref y)
  | _, _ => false
  end.

Definition run_cleanup (w : World) : World :=
  match effect_cleanup w with
  | Some acts => perform_all acts w
  | None => w
  end.

Definition run_effect (p : HeaderProps) (w : World) : World :=
  let (w', cleanup) := Header_effect p w in
  with_component (phase w') (props w') (localNotifications w')
    (localShowNotifications w') cleanup w'.

(** What can happen to a component instance.  React mounts it once
    ([useState] gives the empty list and [false], then the effect runs),
    re-renders it when the parent passes new props (the effect runs again
    when its dependency changed, after the cleanup React holds for it) and
    unmounts it (running that cleanup).  In between, awaited promises
    settle, realtime events arrive on open channels and the user clicks;
    React renders between two such events, so a handler sees the current
    state. *)
Inductive Event :=
| Mount (p : HeaderProps)
| Render (p : HeaderProps)
| Unmount
| Resolve (task : nat) (x : Response)
| RealtimeInsert (channel : nat) (row : Row)
| ClickBell
| ClickNotification (index : nat)
| ClickLogout.

Definition step (w : World) (e : Event) : World :=
  match e with
  | Mount p =>
      match phase w with
      | NotMounted =>
          run_effect p (with_component Mounted p [] false None w)
      | _ => w
      end
  | Render p =>
      if is_mounted w then
        let changed := negb (Object_is (notifications (props w)) (notifications p)) in
        let w1 := with_component (phase w) p (localNotifications w)
                    (localShowNotifications w) (effect_cleanup w) w in
        if changed then run_effect p (run_cleanup w1) else w1
      else w
  | Unmount =>
      if is_mounted w then
        let w1 := run_cleanup w in
        with_component Removed (props w1) (localNotifications w1)
          (localShowNotifications w1) None w1
      else w
  | Resolve i x => resolve i x w
  | RealtimeInsert c row =>
      match channels w !! c with
      | Some ch => perform_all (callback ch {| new := row |}) w
      | None => w
      end
  | ClickBell =>
      if is_mounted w
      then perform_all
             (handleToggleNotifications (props w) (localShowNotifications w)) w
      else w
  | ClickNotification i =>
      match dropdown (view w) with
      | Some shown =>
          match shown !! i with
          | Some notif =>
              if is_mounted w
              then spawn (handleMarkNotificationAsRead (props w) (id notif)) w
              else w
          | None => w
          end
      | None => w
      end
  | ClickLogout =>
      if is_mounted w then spawn handleLogout w else w
  end.

Definition run (w : World) (es : list Event) : World := foldl step w es.

(** * Vocabulary of the properties *)

(** ** Observations *)

(** Whether the dropdown is drawn. *)
Definition visible (w : World) : bool :=
  shown_showNotifications (props w) (localShowNotifications w).

(** How many entries of a list carry an id. *)
Definition occurrences (notificationId : Z) (l : list Notification) : nat :=
  length (List.filter (fun notif => Z.eqb (id notif) notificationId) l).

(** "Any notification-related prop is supplied". *)
Definition any_notification_prop (p : HeaderProps) : bool :=
  truthy (notifications p) || truthy (toggleNotifications p)
  || truthy (markNotificationAsRead p) || truthy (showNotifications p).

(** The query of [fetchNotifications], written out. *)
Definition unread_of (uid : string) : SelectQuery :=
  {| q_table := "notifications"; q_columns := "*";
     q_eq := [("user_id", VStr uid); ("is_read", VBool false)];
     q_order := Some ("created_at", false);
     q_limit := Some 10%nat |}.

Definition in_order (ord : string * bool) (r1 r2 : Row) : Prop :=
  before ord r1 r2 = true.

(** [fetchNotifications] suspended at line 80, the session in hand. *)
Definition fetch_awaits_rows (session : Session) : Prog unit :=
  after fetchNotifications (session_is (Some session)).

(** Run an async function to its end, the awaited promises settling with
    [xs] in turn: the value its own promise resolves to. *)
Fixpoint settle {A} (p : Prog A) (xs : list Response) (w : World)
  : World * option A :=
  match p with
  | Ret a => (w, Some a)
  | Await r k =>
      match xs with
      | x :: xs' =>
          match accept r x with
          | Some v => settle (k v) xs' (issue r w)
          | None => (w, None)
          end
      | [] => (w, None)
      end
  | Perform a k => settle k xs (perform a w)
  | Subscribe ch k => settle (k (next_channel w)) xs (open_channel ch w)
  end.

(** ** Invariants

    The suspended calls hold closures, so what they may still do is
    described by [prog_ok]: every synchronous call, channel and request
    they can reach is allowed, whatever the environment answers.
    [world_ok] asks this of every suspended call, every open channel and
    the registered cleanup, together with a property [J] of the world;
    [event_ok] says which events the environment is assumed to send. *)

Section InvariantVocabulary.
Variable okAct : Act -> Prop.
Variable okChan : Channel -> Prop.
Variable okReq : Req -> Prop.
Variable okProps : HeaderProps -> Prop.
Variable okRow : Row -> Prop.
Variable J : World -> Prop.

Fixpoint prog_ok {A} (p : Prog A) : Prop :=
  match p with
  | Ret _ => True
  | Await r k => okReq r /\ forall x v, accept r x = Some v -> prog_ok (k v)
  | Perform a k => okAct a /\ prog_ok k
  | Subscribe ch k => okChan ch /\ forall c, prog_ok (k c)
  end.

Record world_ok (w : World) : Prop := {
  data_ok : J w;
  tasks_ok : forall i t, tasks w !! i = Some (Some t) -> prog_ok t;
  channels_ok : forall c ch, channels w !! c = Some ch -> okChan ch;
  cleanup_ok : forall acts, effect_cleanup w = Some acts -> Forall okAct acts;
}.

Definition event_ok (e : Event) : Prop :=
  match e with
  | Mount p | Render p => okProps p
  | RealtimeInsert _ row => okRow row
  | _ => True
  end.
End InvariantVocabulary.

Definition any_act (a : Act) : Prop := True.
Definition any_req (r : Req) : Prop := True.
Definition any_props (p : HeaderProps) : Prop := True.
Definition any_row (row : Row) : Prop := True.

(** Unread entries only: what the list holds, which state updates keep
    it so, and which rows and channels are harmless. *)
Definition all_unread (l : list Notification) : Prop :=
  forall notif, In notif l -> is_read notif = false.

Definition keeps_unread (a : Act) : Prop :=
  match a with
  | setLocalNotifications updater => forall l, all_unread l -> all_unread (updater l)
  | _ => True
  end.

Definition unread_row (row : Row) : Prop :=
  is_read (as_Notification row) = false.

Definition unread_channel (ch : Channel) : Prop :=
  forall row, unread_row row -> Forall keeps_unread (callback ch {| new := row |}).

Definition unread_world (w : World) : Prop := all_unread (localNotifications w).

(** No channel, no session lookup, no select. *)
Definition no_channel (ch : Channel) : Prop := False.

Definition not_a_fetch (r : Req) : Prop :=
  match r with
  | getSession | run_select _ => False
  | _ => True
  end.

Definition list_supplied (p : HeaderProps) : Prop := notifications p <> None.

Definition quiet_world (w : World) : Prop :=
  channels w = ∅ /\ forall r, In r (requests w) -> not_a_fetch r.

(** No [removeChannel]; channel handles are never reused. *)
Definition no_remove (a : Act) : Prop :=
  match a with removeChannel _ => False | _ => True end.

Definition no_remove_channel (ch : Channel) : Prop :=
  forall row, Forall no_remove (callback ch {| new := row |}).

Definition fresh_channels (w : World) : Prop :=
  forall c, is_Some (channels w !! c) -> (c < next_channel w)%nat.

Definition keeps_channel (c : nat) (ch : Channel) (w : World) : Prop :=
  fresh_channels w /\ channels w !! c = Some ch.

(** Nothing to show: no channel, no select, an empty local list, kept
    so by every state update that maps the empty list to itself. *)
Definition keeps_empty (a : Act) : Prop :=
  match a with
  | setLocalNotifications updater => updater [] = []
  | _ => True
  end.

Definition not_a_select (r : Req) : Prop :=
  match r with run_select _ => False | _ => True end.

Definition no_props (p : HeaderProps) : Prop := False.

Definition empty_world (w : World) : Prop :=
  channels w = ∅ /\ (forall r, In r (requests w) -> not_a_select r) /\
  localNotifications w = [].

(** An event that is neither a mount nor a re-render. *)
Definition same_props (e : Event) : Prop :=
  match e with Mount _ | Render _ => False | _ => True end.

(** ** Sample data *)

Definition a_session : Session := {| user := {| user_ident := "u1" |} |}.

Definition a_notification (i : Z) (read : bool) (at_ : string) : Notification :=
  {| id := i; message := "Your grievance was updated"; grievance_id := 7;
     is_read := read; created_at := at_ |}.

Definition a_row (owner : string) (i : Z) (read : bool) (at_ : string) : Row :=
  {| user_id := owner; as_Notification := a_notification i read at_ |}.

Definition a_table : list Row :=
  [a_row "u1" 1 false "2024-01-01T09:00:00";
   a_row "u2" 2 false "2024-01-02T09:00:00";
   a_row "u1" 3 true "2024-01-03T09:00:00";
   a_row "u1" 4 false "2024-01-04T09:00:00";
   a_row "u1" 5 false "2024-01-02T09:00:00"].

(** Mounted in local mode, session present, fetch answered from [table]. *)
Definition loaded (table : list Row) : World :=
  run init [Mount init_props;
            Resolve 0 (session_is (Some a_session));
            Resolve 0 (session_is (Some a_session));
            Resolve 0 (rows_of table)].

Definition an_external_list : JsArray :=
  {| ref := 1; items := [a_notification 4 false "2024-01-04T09:00:00"] |}.

Definition display_only_props : HeaderProps :=
  {| role := employee; notifications := Some an_external_list;
     toggleNotifications := None; markNotificationAsRead := None;
     showNotifications := None |}.

(** * Properties *)

(** ** What the event loop leaves alone *)

Lemma perform_tasks a w : tasks (perform a w) = tasks w.
Proof. destruct a; simpl; try destruct (is_mounted w); reflexivity. Qed.

Lemma perform_cleanup a w : effect_cleanup (perform a w) = effect_cleanup w.
Proof. destruct a; simpl; try destruct (is_mounted w); reflexivity. Qed.

Lemma run_app w es1 es2 : run w (es1 ++ es2) = run (run w es1) es2.
Proof. apply foldl_app. Qed.

(** ** Invariants of the event loop

    A property of the world that every synchronous call, subscription and
    request of the component preserves is preserved by every event. *)

Section Invariant.
Variable okAct : Act -> Prop.
Variable okChan : Channel -> Prop.
Variable okReq : Req -> Prop.
Variable okProps : HeaderProps -> Prop.
Variable okRow : Row -> Prop.
Variable J : World -> Prop.

Local Abbreviation allowed := (prog_ok okAct okChan okReq).
Local Abbreviation sound := (world_ok okAct okChan okReq J).
Local Abbreviation expected := (event_ok okProps okRow).

Lemma prog_ok_bind {A B} (p : Prog A) (f : A -> Prog B) :
  allowed p -> (forall a, allowed (f a)) -> allowed (bind p f).
Proof.
  intros Hp Hf; induction p as [a|r k IH|a k IH|ch k IH]; simpl in *.
  - apply Hf.
  - destruct Hp as [Hr Hk]; split; [exact Hr|]. intros x v Hv. eauto.
  - destruct Hp as [Ha Hk]; split; auto.
  - destruct Hp as [Hch Hk]; split; auto.
Qed.

Hypothesis J_perform : forall a w, okAct a -> J w -> J (perform a w).
Hypothesis J_open : forall ch w, okChan ch -> J w -> J (open_channel ch w).
Hypothesis J_issue : forall r w, okReq r -> J w -> J (issue r w).
Hypothesis J_tasks : forall t w, J w -> J (with_tasks t w).
Hypothesis J_component : forall ph p s c w,
  J w -> J (with_component ph p (localNotifications w) s c w).
Hypothesis J_mount : forall p w,
  J w -> J (with_component Mounted p [] false None w).
Hypothesis callback_ok : forall ch row,
  okChan ch -> okRow row -> Forall okAct (callback ch {| new := row |}).
Hypothesis initialize_ok : forall p,
  okProps p -> notifications p = None -> allowed (ignore initialize).
Hypothesis mark_ok : forall p i, allowed (handleMarkNotificationAsRead p i).
Hypothesis logout_ok : allowed handleLogout.
Hypothesis toggle_ok : forall p b, Forall okAct (handleToggleNotifications p b).

Lemma perform_channels_ok a w :
  okAct a ->
  (forall c ch, channels w !! c = Some ch -> okChan ch) ->
  forall c ch, channels (perform a w) !! c = Some ch -> okChan ch.
Proof.
  intros Ha Hw c ch.
  destruct a; simpl; try destruct (is_mounted w); simpl; try apply Hw.
  all: intros [_ H]%lookup_delete_Some; eapply Hw, H.
Qed.

Lemma perform_ok a w : okAct a -> sound w -> sound (perform a w).
Proof.
  intros Ha [HJ Ht Hc Hcl]; split.
  - auto.
  - rewrite perform_tasks. exact Ht.
  - apply perform_channels_ok; assumption.
  - rewrite perform_cleanup. exact Hcl.
Qed.

Lemma perform_all_ok acts w :
  Forall okAct acts -> sound w -> sound (perform_all acts w).
Proof.
  intros Hacts; revert w; induction Hacts as [|a acts Ha _ IH]; intros w Hw.
  - exact Hw.
  - simpl. apply IH, perform_ok; assumption.
Qed.

Lemma open_channel_ok ch w : okChan ch -> sound w -> sound (open_channel ch w).
Proof.
  intros Hch [HJ Ht Hc Hcl]; split; auto.
  intros c ch'; simpl. rewrite lookup_insert.
  case_decide; [intros [= <-]; exact Hch | apply Hc].
Qed.

Lemma issue_ok r w : okReq r -> sound w -> sound (issue r w).
Proof. intros Hr [HJ Ht Hc Hcl]; split; auto. Qed.

Lemma exec_ok {A} (p : Prog A) w :
  allowed p -> sound w -> sound (exec p w).1 /\ allowed (exec p w).2.
Proof.
  revert w; induction p as [a|r k IH|a k IH|ch k IH]; intros w Hp Hw; simpl.
  - split; [exact Hw | exact I].
  - split; [apply issue_ok; [apply Hp | exact Hw] | exact Hp].
  - destruct Hp as [Ha Hk]. apply IH; [exact Hk | apply perform_ok; assumption].
  - destruct Hp as [Hch Hk]. apply IH; [apply Hk | apply open_channel_ok; assumption].
Qed.

Lemma with_tasks_ok t w :
  sound w ->
  (forall i p, t !! i = Some (Some p) -> allowed p) ->
  sound (with_tasks t w).
Proof. intros [HJ Ht Hc Hcl] H; split; auto. Qed.

Lemma suspended_ok {A} (p q : Prog A) :
  allowed p -> suspended p = Some q -> allowed q.
Proof. destruct p; simpl; intros Hp [= <-]; exact Hp. Qed.

Lemma spawn_ok p w : allowed p -> sound w -> sound (spawn p w).
Proof.
  intros Hp Hw. unfold spawn.
  destruct (exec_ok p w Hp Hw) as [Hw' Hrest].
  destruct (exec p w) as [w' rest]; simpl in *.
  destruct (suspended rest) as [t|] eqn:Ht; [|exact Hw'].
  apply with_tasks_ok; [exact Hw'|].
  intros i q Hi. apply lookup_app_Some in Hi as [Hi|[_ Hi]].
  - eapply tasks_ok; eassumption.
  - apply list_lookup_singleton_Some in Hi as [_ [= <-]].
    eapply suspended_ok; eassumption.
Qed.

Lemma resolve_ok i x w : sound w -> sound (resolve i x w).
Proof.
  intros Hw. unfold resolve.
  destruct (tasks w !! i) as [[[a|r k|a k|ch k]|]|] eqn:Hi; try exact Hw.
  destruct (accept r x) as [v|] eqn:Hv; [|exact Hw].
  assert (Hk : allowed (k v)).
  { pose proof (tasks_ok _ _ _ _ w Hw i _ Hi) as [_ Ht]. eauto. }
  destruct (exec_ok (k v) w Hk Hw) as [Hw' Hrest].
  destruct (exec (k v) w) as [w' rest]; simpl in *.
  apply with_tasks_ok; [exact Hw'|].
  intros j q Hj.
  destruct (decide (i = j)) as [<-|Hne].
  - destruct (decide (i < length (tasks w'))%nat) as [Hlt|Hge].
    + rewrite list_lookup_insert_eq in Hj by exact Hlt.
      injection Hj as Hj. eapply suspended_ok; eassumption.
    + rewrite list_insert_ge in Hj by lia.
      eapply tasks_ok; eassumption.
  - rewrite list_lookup_insert_ne in Hj by exact Hne.
    eapply tasks_ok; eassumption.
Qed.

Lemma with_component_ok ph p s c w :
  sound w ->
  (forall acts, c = Some acts -> Forall okAct acts) ->
  sound (with_component ph p (localNotifications w) s c w).
Proof. intros [HJ Ht Hc Hcl] H; split; auto. Qed.

Lemma mount_ok p w :
  sound w -> sound (with_component Mounted p [] false None w).
Proof. intros [HJ Ht Hc Hcl]; split; auto. intros acts [=]. Qed.

Lemma run_cleanup_ok w : sound w -> sound (run_cleanup w).
Proof.
  intros Hw. unfold run_cleanup.
  destruct (effect_cleanup w) as [acts|] eqn:Hc; [|exact Hw].
  apply perform_all_ok; [|exact Hw]. eapply cleanup_ok; eassumption.
Qed.

Lemma run_effect_ok p w : okProps p -> sound w -> sound (run_effect p w).
Proof.
  intros Hp Hw. unfold run_effect, Header_effect.
  destruct (notifications p) as [ext|] eqn:Hn; simpl.
  - apply with_component_ok; [exact Hw | intros acts [=]].
  - apply (with_component_ok _ _ _ _ (spawn (ignore initialize) w));
      [|intros acts [=]].
    apply spawn_ok; [|exact Hw]. eapply initialize_ok; eassumption.
Qed.

Lemma step_ok w e : expected e -> sound w -> sound (step w e).
Proof.
  intros He Hw. destruct e as [p|p| |i x|c row| |i| ]; simpl in He; cbn [step].
  - destruct (phase w); try exact Hw.
    apply run_effect_ok; [exact He|]. apply mount_ok, Hw.
  - destruct (is_mounted w); [|exact Hw].
    assert (Hw1 : sound (with_component (phase w) p (localNotifications w)
                              (localShowNotifications w) (effect_cleanup w) w)).
    { apply with_component_ok; [exact Hw|]. apply (cleanup_ok _ _ _ _ _ Hw). }
    destruct (negb _); [|exact Hw1].
    apply run_effect_ok; [exact He|]. apply run_cleanup_ok, Hw1.
  - destruct (is_mounted w); [|exact Hw].
    apply (with_component_ok _ _ _ _ (run_cleanup w));
      [apply run_cleanup_ok, Hw | intros acts [=]].
  - apply resolve_ok, Hw.
  - destruct (channels w !! c) as [ch|] eqn:Hc; [|exact Hw].
    apply perform_all_ok; [|exact Hw].
    apply callback_ok; [|exact He]. eapply channels_ok; eassumption.
  - destruct (is_mounted w); [|exact Hw].
    apply perform_all_ok; [apply toggle_ok | exact Hw].
  - destruct (dropdown (view w)) as [shown|]; [|exact Hw].
    destruct (shown !! i) as [notif|]; [|exact Hw].
    destruct (is_mounted w); [|exact Hw].
    apply spawn_ok; [apply mark_ok | exact Hw].
  - destruct (is_mounted w); [|exact Hw].
    apply spawn_ok; [apply logout_ok | exact Hw].
Qed.

Lemma run_ok es w : Forall expected es -> sound w -> sound (run w es).
Proof.
  intros Hes; revert w; induction Hes as [|e es He _ IH]; intros w Hw.
  - exact Hw.
  - apply IH, step_ok; assumption.
Qed.
End Invariant.

(** ** Resuming a suspended call *)

Lemma resolve_await i x w r k v :
  tasks w !! i = Some (Some (Await r k)) ->
  accept r x = Some v ->
  resolve i x w =
    with_tasks (<[i := suspended (exec (k v) w).2]> (tasks (exec (k v) w).1))
      (exec (k v) w).1.
Proof.
  intros Hi Hv. unfold resolve. rewrite Hi, Hv.
  destruct (exec (k v) w); reflexivity.
Qed.

(** ** Where the displayed state comes from *)

(** C10.  The displayed list and the visibility flag are chosen
    separately: the list is the external one whenever an array is passed
    (an empty one too) and the local one otherwise; the flag is the
    external one whenever it is defined ([false] too) and the local one
    otherwise.  Both mixed modes exist. *)
Theorem display_sources_independent :
  (forall r t m (ext : option JsArray) (vis : option bool) local show,
     let p := {| role := r; notifications := ext; toggleNotifications := t;
                 markNotificationAsRead := m; showNotifications := vis |} in
     shown_notifications p local = default local (items <$> ext) /\
     shown_showNotifications p show = default show vis /\
     dropdown (render p local show) =
       (if default show vis then Some (default local (items <$> ext)) else None)) /\
  (forall r t m vis k local show,
     shown_notifications
       {| role := r; notifications := Some {| ref := k; items := [] |};
          toggleNotifications := t; markNotificationAsRead := m;
          showNotifications := vis |} local = [] /\
     shown_showNotifications
       {| role := r; notifications := Some {| ref := k; items := [] |};
          toggleNotifications := t; markNotificationAsRead := m;
          showNotifications := Some false |} show = false) /\
  (forall r t m (b : bool) ext local show,
     let p1 := {| role := r; notifications := None; toggleNotifications := t;
                  markNotificationAsRead := m; showNotifications := Some b |} in
     let p2 := {| role := r; notifications := Some ext; toggleNotifications := t;
                  markNotificationAsRead := m; showNotifications := None |} in
     (shown_notifications p1 local = local /\ shown_showNotifications p1 show = b) /\
     (shown_notifications p2 local = items ext /\ shown_showNotifications p2 show = show)).
Proof.
  split; [|split].
  - intros r t m [ext|] [vis|] local show; simpl; auto.
  - intros; split; reflexivity.
  - intros; repeat split; reflexivity.
Qed.

(** ** The dropdown toggle *)

Lemma mount_state p :
  let w := step init (Mount p) in
  phase w = Mounted /\ props w = p /\ localNotifications w = [] /\
  localShowNotifications w = false /\ effect_cleanup w = None.
Proof. destruct p as [r [ext|] t m vis]; repeat split; reflexivity. Qed.

Lemma click_bell_local w :
  is_mounted w = true ->
  toggleNotifications (props w) = None ->
  step w ClickBell =
    with_component (phase w) (props w) (localNotifications w)
      (negb (localShowNotifications w)) (effect_cleanup w) w.
Proof.
  intros Hm Ht. cbn [step]. rewrite Hm.
  unfold handleToggleNotifications. rewrite Ht.
  cbn [perform_all foldl perform]. rewrite Hm. reflexivity.
Qed.

(** C9.  With no external toggle and no external flag, one click on the
    bell flips the dropdown, two clicks restore it, and a freshly mounted
    component has it hidden. *)
Theorem toggle_twice_restores (w : World) :
  is_mounted w = true ->
  toggleNotifications (props w) = None ->
  showNotifications (props w) = None ->
  visible (step w ClickBell) = negb (visible w) /\
  visible (step (step w ClickBell) ClickBell) = visible w /\
  (forall p, localShowNotifications (step init (Mount p)) = false) /\
  (forall p, showNotifications p = None -> visible (step init (Mount p)) = false).
Proof.
  intros Hm Ht Hs.
  pose proof (click_bell_local w Hm Ht) as H1.
  assert (Hm1 : is_mounted (step w ClickBell) = true) by (rewrite H1; exact Hm).
  assert (Ht1 : toggleNotifications (props (step w ClickBell)) = None)
    by (rewrite H1; exact Ht).
  pose proof (click_bell_local _ Hm1 Ht1) as H2.
  split; [|split; [|split]].
  - unfold visible, shown_showNotifications. rewrite H1. cbn. rewrite Hs.
    reflexivity.
  - unfold visible, shown_showNotifications. rewrite H2, H1. cbn. rewrite Hs.
    apply negb_involutive.
  - intros p. apply (mount_state p).
  - intros p Hp. unfold visible, shown_showNotifications.
    destruct (mount_state p) as (_ & -> & _ & -> & _).
    rewrite Hp. reflexivity.
Qed.

Lemma toggle_twice_restores_witness :
  let w := step init (Mount init_props) in
  (is_mounted w = true /\ toggleNotifications (props w) = None /\
   showNotifications (props w) = None) /\
  visible (step w ClickBell) = negb (visible w) /\
  visible (step (step w ClickBell) ClickBell) = visible w.
Proof.
  split; [repeat split|].
  split; apply (toggle_twice_restores (step init (Mount init_props)));
    reflexivity.
Defined.

(** ** Logout *)

Lemma click_logout w :
  is_mounted w = true ->
  step w ClickLogout =
    with_tasks (tasks w ++ [Some handleLogout]) (issue signOut w).
Proof. intros Hm. cbn [step]. rewrite Hm. reflexivity. Qed.

(** C6.  A click on Logout issues the sign-out.  Whatever the sign-out
    settles with, success or error, the call then pushes the root route
    and asks for a refresh, in that order; an error is logged first and
    changes nothing else. *)
Theorem logout_always_navigates (w0 : World) :
  is_mounted w0 = true ->
  let i := length (tasks w0) in
  let w1 := step w0 ClickLogout in
  requests w1 = requests w0 ++ [signOut] /\
  tasks w1 !! i = Some (Some handleLogout) /\
  forall w x (outcome : option SbError),
    tasks w !! i = Some (Some handleLogout) ->
    accept signOut x = Some outcome ->
    let w' := step w (Resolve i x) in
    router w' = router w ++ [router_push "/"; router_refresh] /\
    console w' = console w ++
      match outcome with
      | Some err => [("Logout error:", error_message err)]
      | None => []
      end /\
    tasks w' !! i = Some None.
Proof.
  intros Hm i w1. subst w1. rewrite (click_logout _ Hm). split; [reflexivity|].
  split.
  { cbn. subst i. rewrite lookup_app_r by lia. rewrite Nat.sub_diag. reflexivity. }
  intros w x outcome Hi Hx w'. subst w'. cbn [step].
  assert (Hlt : (i < length (tasks w))%nat) by (eapply lookup_lt_Some; eassumption).
  unfold handleLogout in Hi. cbn in Hi.
  rewrite (resolve_await _ _ _ _ _ _ Hi Hx).
  destruct outcome as [err|]; cbn.
  - rewrite <- !app_assoc. repeat split.
    apply list_lookup_insert_eq. exact Hlt.
  - rewrite <- !app_assoc, app_nil_r. repeat split.
    apply list_lookup_insert_eq. exact Hlt.
Qed.

Lemma logout_always_navigates_witness :
  let w0 := step init (Mount init_props) in
  let w := step w0 ClickLogout in
  let w' := step w (Resolve 1 (failed {| error_message := "network" |})) in
  is_mounted w0 = true /\
  router w' = [router_push "/"; router_refresh] /\
  console w' = [("Logout error:", "network")].
Proof.
  split; [reflexivity|].
  pose proof (logout_always_navigates (step init (Mount init_props)) eq_refl)
    as (_ & Hi & H).
  destruct (H _ (failed {| error_message := "network" |}) _ Hi eq_refl)
    as (Hr & Hc & _).
  split; [exact Hr | exact Hc].
Defined.

(** ** Marking a notification as read *)

Lemma filter_out_length (notificationId : Z) (l : list Notification) :
  (length (List.filter (fun notif => negb (Z.eqb (id notif) notificationId)) l)
   + occurrences notificationId l = length l)%nat.
Proof.
  unfold occurrences. induction l as [|n l IH]; simpl; [reflexivity|].
  destruct (Z.eqb (id n) notificationId); simpl; lia.
Qed.

Lemma filter_out_absent (notificationId : Z) (l : list Notification) n :
  In n (List.filter (fun notif => negb (Z.eqb (id notif) notificationId)) l) ->
  id n <> notificationId.
Proof.
  intros [_ H]%filter_In. apply negb_true_iff, Z.eqb_neq in H. exact H.
Qed.

Lemma click_notification w i notif :
  is_mounted w = true ->
  visible w = true ->
  shown_notifications (props w) (localNotifications w) !! i = Some notif ->
  markNotificationAsRead (props w) = None ->
  step w (ClickNotification i) =
    with_tasks
      (tasks w ++ [Some (handleMarkNotificationAsRead (props w) (id notif))])
      (issue (run_update {| u_table := "notifications";
                            u_set := [("is_read", VBool true)];
                            u_eq := [("id", VNum (id notif))] |}) w).
Proof.
  intros Hm Hv Hi Hp. cbn [step]. unfold view, render, dropdown.
  fold (visible w). rewrite Hv, Hi, Hm.
  unfold handleMarkNotificationAsRead. rewrite Hp. reflexivity.
Qed.

(** What a successful mark-read does to the local list, for any list. *)
Lemma mark_read_success w i p notificationId :
  is_mounted w = true ->
  markNotificationAsRead p = None ->
  tasks w !! i = Some (Some (handleMarkNotificationAsRead p notificationId)) ->
  let w' := step w (Resolve i ok) in
  localNotifications w' =
    List.filter (fun notif => negb (Z.eqb (id notif) notificationId))
      (localNotifications w) /\
  props w' = props w.
Proof.
  intros Hm Hp Hi w'. subst w'. cbn [step].
  unfold handleMarkNotificationAsRead in Hi. rewrite Hp in Hi. cbn in Hi.
  erewrite resolve_await; [|exact Hi|reflexivity].
  cbn. rewrite Hm. split; reflexivity.
Qed.

(** C5.  In local mode, when the update fails the mark-read call logs the
    error and stops: the local list, the displayed list, the badge and
    the requests issued are what they were. *)
Theorem mark_read_failure_keeps_list (w : World) (i : nat) (p : HeaderProps)
    (notificationId : Z) (err : SbError) :
  markNotificationAsRead p = None ->
  tasks w !! i = Some (Some (handleMarkNotificationAsRead p notificationId)) ->
  let w' := step w (Resolve i (failed err)) in
  localNotifications w' = localNotifications w /\
  view w' = view w /\
  badge (view w') = badge (view w) /\
  console w' = console w ++
    [("Error marking notification as read:", error_message err)] /\
  requests w' = requests w /\
  tasks w' !! i = Some None.
Proof.
  intros Hp Hi w'. subst w'. cbn [step].
  assert (Hlt : (i < length (tasks w))%nat) by (eapply lookup_lt_Some; eassumption).
  unfold handleMarkNotificationAsRead in Hi. rewrite Hp in Hi. cbn in Hi.
  erewrite resolve_await; [|exact Hi|reflexivity].
  cbn. repeat split. apply list_lookup_insert_eq. exact Hlt.
Qed.

Lemma mark_read_failure_keeps_list_witness :
  let w := run (loaded a_table) [ClickBell; ClickNotification 0] in
  let w' := step w (Resolve 1 (failed {| error_message := "timeout" |})) in
  (markNotificationAsRead init_props = None /\
   tasks w !! 1%nat = Some (Some (handleMarkNotificationAsRead init_props 4))) /\
  localNotifications w' = localNotifications w /\
  badge (view w') = Some 3%nat.
Proof.
  split; [split; reflexivity|].
  pose proof (mark_read_failure_keeps_list
                (run (loaded a_table) [ClickBell; ClickNotification 0])
                1 init_props 4 {| error_message := "timeout" |} eq_refl eq_refl)
    as (Hl & _ & Hb & _).
  split; [exact Hl | rewrite Hb; reflexivity].
Defined.

(** C4, as the code has it.  In local mode a successful mark-read removes
    every entry with the given id.  So when the id occurs exactly once in
    the list, no entry with that id is left and the displayed list, hence
    the badge count, is shorter by exactly one. *)
Theorem mark_read_success_removes_single (w : World) (i : nat) (p : HeaderProps)
    (notificationId : Z) :
  is_mounted w = true ->
  notifications (props w) = None ->
  markNotificationAsRead p = None ->
  tasks w !! i = Some (Some (handleMarkNotificationAsRead p notificationId)) ->
  occurrences notificationId (localNotifications w) = 1%nat ->
  let shown w := shown_notifications (props w) (localNotifications w) in
  let w' := step w (Resolve i ok) in
  (forall notif, In notif (shown w') -> id notif <> notificationId) /\
  (length (shown w') + 1 = length (shown w))%nat /\
  badge (view w) = Some (S (length (shown w'))).
Proof.
  intros Hm Hn Hp Hi Hocc shown w'.
  destruct (mark_read_success w i p notificationId Hm Hp Hi) as [Hl Hpr].
  fold w' in Hl, Hpr. subst shown. cbv beta.
  pose proof (filter_out_length notificationId (localNotifications w)) as Hlen.
  unfold view, render, badge, shown_notifications.
  rewrite Hpr, Hn, Hl. split; [|split].
  - intros notif. apply filter_out_absent.
  - lia.
  - rewrite Hocc in Hlen. rewrite <- Hlen.
    replace (_ + 1)%nat with (S (length
      (List.filter (fun notif => negb (Z.eqb (id notif) notificationId))
         (localNotifications w)))) by lia.
    reflexivity.
Qed.

Lemma mark_read_success_removes_single_witness :
  let w := run (loaded a_table) [ClickBell; ClickNotification 0] in
  let w' := step w (Resolve 1 ok) in
  (is_mounted w = true /\ notifications (props w) = None /\
   markNotificationAsRead init_props = None /\
   tasks w !! 1%nat = Some (Some (handleMarkNotificationAsRead init_props 4)) /\
   occurrences 4 (localNotifications w) = 1%nat) /\
  (length (localNotifications w') + 1 = length (localNotifications w))%nat.
Proof.
  split; [repeat split|].
  exact (proj1 (proj2 (mark_read_success_removes_single
    (run (loaded a_table) [ClickBell; ClickNotification 0])
    1 init_props 4 eq_refl eq_refl eq_refl eq_refl eq_refl))).
Defined.

(** The general count: the list shrinks by the number of entries that
    carry the id. *)
Lemma mark_read_success_removes_all (w : World) (i : nat) (p : HeaderProps)
    (notificationId : Z) :
  is_mounted w = true ->
  markNotificationAsRead p = None ->
  tasks w !! i = Some (Some (handleMarkNotificationAsRead p notificationId)) ->
  let w' := step w (Resolve i ok) in
  (length (localNotifications w')
   + occurrences notificationId (localNotifications w)
   = length (localNotifications w))%nat.
Proof.
  intros Hm Hp Hi w'.
  destruct (mark_read_success w i p notificationId Hm Hp Hi) as [Hl _].
  fold w' in Hl. rewrite Hl. apply filter_out_length.
Qed.

(** C4 as stated fails: the row of a realtime insert that the fetch has
    also returned is in the list twice; marking it read removes both
    entries and the badge drops from 2 to 0. *)
Lemma mark_read_counterexample :
  let w := run (loaded [a_row "u1" 4 false "2024-01-04T09:00:00"])
             [RealtimeInsert 0 (a_row "u1" 4 false "2024-01-04T09:00:00");
              ClickBell; ClickNotification 0] in
  let w' := step w (Resolve 1 ok) in
  is_mounted w = true /\
  notifications (props w) = None /\
  markNotificationAsRead (props w) = None /\
  shown_notifications (props w) (localNotifications w) =
    [a_notification 4 false "2024-01-04T09:00:00";
     a_notification 4 false "2024-01-04T09:00:00"] /\
  tasks w !! 1%nat = Some (Some (handleMarkNotificationAsRead (props w) 4)) /\
  badge (view w) = Some 2%nat /\
  badge (view w') = None /\
  length (shown_notifications (props w') (localNotifications w')) <>
    (length (shown_notifications (props w) (localNotifications w)) - 1)%nat.
Proof.
  cbv zeta. split; [|split; [|split; [|split; [|split; [|split; [|split]]]]]].
  - vm_compute; reflexivity.
  - vm_compute; reflexivity.
  - vm_compute; reflexivity.
  - vm_compute; reflexivity.
  - vm_compute; reflexivity.
  - vm_compute; reflexivity.
  - vm_compute; reflexivity.
  - vm_compute. discriminate.
Qed.

(** ** What a select answers *)

Lemma value_leb_total a b : value_leb a b = false -> value_leb b a = true.
Proof.
  destruct a as [|x|x|x], b as [|y|y|y]; simpl; try discriminate; try reflexivity.
  - destruct x, y; simpl; congruence.
  - intros H. apply Z.leb_gt in H. apply Z.leb_le. lia.
  - intros H. destruct (String.leb_total x y) as [H'|H']; congruence.
Qed.

Lemma before_total ord a b : before ord a b = false -> before ord b a = true.
Proof. unfold before. destruct (snd ord); apply value_leb_total. Qed.

Lemma insert_sorted_In ord r l x :
  In x (insert_sorted ord r l) <-> x = r \/ In x l.
Proof.
  induction l as [|r' l IH]; simpl.
  - intuition.
  - destruct (before ord r r'); simpl; rewrite ?IH; intuition.
Qed.

Lemma sort_rows_In ord l x : In x (sort_rows ord l) <-> In x l.
Proof.
  unfold sort_rows. induction l as [|r l IH]; simpl; [tauto|].
  rewrite insert_sorted_In, IH. intuition.
Qed.

Lemma sort_rows_length ord l : length (sort_rows ord l) = length l.
Proof.
  unfold sort_rows. induction l as [|r l IH]; simpl; [reflexivity|].
  rewrite <- IH. generalize (foldr (insert_sorted ord) [] l) as s.
  induction s as [|r' s IHs]; simpl; [reflexivity|].
  destruct (before ord r r'); simpl; congruence.
Qed.

Lemma insert_sorted_HdRel ord r r0 l :
  in_order ord r0 r -> HdRel (in_order ord) r0 l ->
  HdRel (in_order ord) r0 (insert_sorted ord r l).
Proof.
  intros Hr Hl. destruct l as [|r' l]; simpl.
  - constructor. exact Hr.
  - destruct (before ord r r'); constructor; [exact Hr|].
    inversion Hl; assumption.
Qed.

Lemma insert_sorted_Sorted ord r l :
  Sorted (in_order ord) l -> Sorted (in_order ord) (insert_sorted ord r l).
Proof.
  induction 1 as [|r' l Hl IH Hhd]; simpl.
  - repeat constructor.
  - destruct (before ord r r') eqn:Hb.
    + constructor; [constructor; assumption|]. constructor. exact Hb.
    + constructor; [exact IH|].
      apply insert_sorted_HdRel; [|exact Hhd].
      apply before_total, Hb.
Qed.

Lemma sort_rows_Sorted ord l : Sorted (in_order ord) (sort_rows ord l).
Proof.
  unfold sort_rows. induction l as [|r l IH]; simpl.
  - constructor.
  - apply insert_sorted_Sorted, IH.
Qed.

Lemma Sorted_take {A} (R : A -> A -> Prop) n l : Sorted R l -> Sorted R (take n l).
Proof.
  intros H; revert n; induction H as [|x l Hl IH Hhd]; intros [|n]; simpl;
    try constructor.
  - apply IH.
  - destruct Hhd; destruct n; simpl; constructor; assumption.
Qed.

Lemma Sorted_weaken {A} (R1 R2 : A -> A -> Prop) l :
  (forall a b, R1 a b -> R2 a b) -> Sorted R1 l -> Sorted R2 l.
Proof.
  intros HR; induction 1 as [|x l Hl IH Hhd]; constructor; [exact IH|].
  destruct Hhd; constructor; auto.
Qed.

Lemma In_take {A} n (l : list A) x : In x (take n l) -> In x l.
Proof.
  revert n; induction l as [|y l IH]; intros [|n]; simpl; try tauto.
  intros [->|H]; [left; reflexivity | right; eapply IH, H].
Qed.

Lemma column_user_id r : column "user_id" r = VStr (user_id r).
Proof. reflexivity. Qed.

Lemma column_is_read r : column "is_read" r = VBool (is_read (as_Notification r)).
Proof. reflexivity. Qed.

Lemma column_created_at r :
  column "created_at" r = VStr (created_at (as_Notification r)).
Proof. reflexivity. Qed.

Lemma unread_of_rows uid table r :
  In r (run_query (unread_of uid) table) ->
  In r table /\ user_id r = uid /\ is_read (as_Notification r) = false.
Proof.
  unfold run_query, unread_of; cbn [q_eq q_order q_limit].
  intros H%In_take. apply sort_rows_In in H. apply filter_In in H as [Hin Hm].
  split; [exact Hin|].
  unfold matches in Hm. cbn [forallb fst snd] in Hm.
  rewrite column_user_id, column_is_read in Hm. cbn in Hm.
  apply andb_true_iff in Hm as [Hu Hr].
  apply andb_true_iff in Hr as [Hr _].
  split.
  - apply String.eqb_eq. exact Hu.
  - destruct (is_read (as_Notification r)); [discriminate|reflexivity].
Qed.

Lemma unread_of_complete uid table r :
  In r table -> user_id r = uid -> is_read (as_Notification r) = false ->
  (length table <= 10)%nat ->
  In r (run_query (unread_of uid) table).
Proof.
  intros Hin Hu Hr Hlen.
  unfold run_query, unread_of; cbn [q_eq q_order q_limit].
  rewrite take_ge.
  - apply sort_rows_In, filter_In. split; [exact Hin|].
    unfold matches. cbn [forallb fst snd].
    rewrite column_user_id, column_is_read, Hr. cbn.
    rewrite andb_true_r. apply String.eqb_eq. exact Hu.
  - rewrite sort_rows_length.
    etransitivity; [apply filter_length_le | exact Hlen].
Qed.

Lemma unread_of_newest_first uid table :
  Sorted (fun r1 r2 =>
            String.leb (created_at (as_Notification r2))
                       (created_at (as_Notification r1)) = true)
         (run_query (unread_of uid) table).
Proof.
  unfold run_query, unread_of; cbn [q_eq q_order q_limit].
  apply Sorted_take.
  eapply Sorted_weaken; [|apply (sort_rows_Sorted ("created_at", false))].
  intros r1 r2. unfold in_order, before. cbn [fst snd].
  rewrite !column_created_at. cbn. tauto.
Qed.

Lemma unread_of_at_most_10 uid table :
  (length (run_query (unread_of uid) table) <= 10)%nat.
Proof.
  unfold run_query, unread_of; cbn [q_eq q_order q_limit].
  rewrite length_take. lia.
Qed.

(** ** The initial fetch *)

Lemma fetch_awaits_rows_query session :
  exists k, fetch_awaits_rows session
            = Await (run_select (unread_of (user_ident (user session)))) k.
Proof. eexists. reflexivity. Qed.

Lemma mount_local_with_session r t m vis session :
  let p := {| role := r; notifications := None; toggleNotifications := t;
              markNotificationAsRead := m; showNotifications := vis |} in
  let w1 := run init [Mount p; Resolve 0 (session_is (Some session))] in
  let w2 := step w1 (Resolve 0 (session_is (Some session))) in
  (channels w1 !! 0%nat = Some (notifications_channel session) /\
   tasks w1 !! 0%nat = Some (Some (initialize_awaits 0 fetchNotifications)) /\
   requests w1 = [getSession; getSession] /\
   is_mounted w1 = true /\ localNotifications w1 = []) /\
  (channels w2 !! 0%nat = Some (notifications_channel session) /\
   tasks w2 !! 0%nat
     = Some (Some (initialize_awaits 0 (fetch_awaits_rows session))) /\
   requests w2 = [getSession; getSession;
                  run_select (unread_of (user_ident (user session)))] /\
   is_mounted w2 = true /\ localNotifications w2 = []).
Proof. repeat split; vm_compute; reflexivity. Qed.

Lemma resolve_fetch w i c session x v :
  tasks w !! i = Some (Some (initialize_awaits c (fetch_awaits_rows session))) ->
  accept (run_select (unread_of (user_ident (user session)))) x = Some v ->
  let w' := step w (Resolve i x) in
  match error v with
  | Some err =>
      localNotifications w' = localNotifications w /\
      console w' = console w ++
        [("Error fetching notifications:", error_message err)]
  | None =>
      (is_mounted w = true ->
       localNotifications w' = as_Notification <$> or_else (data v) []) /\
      console w' = console w
  end /\
  channels w' = channels w /\ requests w' = requests w /\
  phase w' = phase w /\ props w' = props w /\
  tasks w' = <[i := None]> (tasks w).
Proof.
  intros Hi Hv w'. subst w'. cbn [step].
  erewrite resolve_await; [|exact Hi|exact Hv].
  destruct v as [d [err|]]; cbn.
  - repeat split.
  - destruct (is_mounted w); repeat split; discriminate.
Qed.

(** C7.  Mounted in local mode with a session, the component issues one
    select on [notifications]: all columns, [user_id] equal to the
    session's user, [is_read] false, newest [created_at] first, at most
    10 rows.  When it succeeds the local list becomes exactly the rows
    returned, whatever it held; when it fails the list stays and the
    error is logged. *)
Theorem initial_fetch (r : Role) (t m : option ParentFn) (vis : option bool)
    (session : Session) :
  let p := {| role := r; notifications := None; toggleNotifications := t;
              markNotificationAsRead := m; showNotifications := vis |} in
  let uid := user_ident (user session) in
  let q := {| q_table := "notifications"; q_columns := "*";
              q_eq := [("user_id", VStr uid); ("is_read", VBool false)];
              q_order := Some ("created_at", false);
              q_limit := Some 10%nat |} in
  let fetching c := initialize_awaits c (fetch_awaits_rows session) in
  let w0 := run init [Mount p; Resolve 0 (session_is (Some session));
                      Resolve 0 (session_is (Some session))] in
  (requests w0 = [getSession; getSession; run_select q] /\
   tasks w0 !! 0%nat = Some (Some (fetching 0%nat)) /\
   is_mounted w0 = true) /\
  (forall w i c,
     is_mounted w = true ->
     tasks w !! i = Some (Some (fetching c)) ->
     (forall table,
        localNotifications (step w (Resolve i (rows_of table)))
        = as_Notification <$> run_query q table) /\
     localNotifications (step w (Resolve i no_data)) = [] /\
     (forall err,
        let w' := step w (Resolve i (failed err)) in
        localNotifications w' = localNotifications w /\
        console w' = console w ++
          [("Error fetching notifications:", error_message err)])) /\
  (forall table,
     (forall row, In row (run_query q table) ->
        In row table /\ user_id row = uid /\
        is_read (as_Notification row) = false) /\
     Sorted (fun r1 r2 =>
               String.leb (created_at (as_Notification r2))
                          (created_at (as_Notification r1)) = true)
            (run_query q table) /\
     (length (run_query q table) <= 10)%nat).
Proof.
  intros p uid q fetching w0. split; [|split].
  - destruct (mount_local_with_session r t m vis session)
      as [_ (_ & Ht & Hr & Hm & _)].
    repeat split; assumption.
  - intros w i c Hm Hi. split; [|split].
    + intros table.
      destruct (resolve_fetch w i c session (rows_of table) _ Hi eq_refl)
        as [[H _] _].
      apply H, Hm.
    + destruct (resolve_fetch w i c session no_data _ Hi eq_refl) as [[H _] _].
      apply H, Hm.
    + intros err.
      destruct (resolve_fetch w i c session (failed err) _ Hi eq_refl)
        as [H _].
      exact H.
  - intros table. split; [|split].
    + apply unread_of_rows.
    + apply unread_of_newest_first.
    + apply unread_of_at_most_10.
Qed.

Lemma initial_fetch_witness :
  let w := run init [Mount init_props; Resolve 0 (session_is (Some a_session));
                     Resolve 0 (session_is (Some a_session))] in
  (is_mounted w = true /\
   tasks w !! 0%nat
     = Some (Some (initialize_awaits 0 (fetch_awaits_rows a_session)))) /\
  localNotifications (step w (Resolve 0 (rows_of a_table)))
  = [a_notification 4 false "2024-01-04T09:00:00";
     a_notification 5 false "2024-01-02T09:00:00";
     a_notification 1 false "2024-01-01T09:00:00"].
Proof.
  split; [split; vm_compute; reflexivity|].
  pose proof (initial_fetch user_role None None None a_session) as (_ & H & _).
  destruct (H (run init [Mount init_props; Resolve 0 (session_is (Some a_session));
                         Resolve 0 (session_is (Some a_session))])
              0%nat 0%nat eq_refl eq_refl) as (Hrows & _).
  rewrite Hrows. vm_compute. reflexivity.
Defined.

(** ** Realtime inserts *)

Lemma realtime_insert_prepends w c session row :
  is_mounted w = true ->
  channels w !! c = Some (notifications_channel session) ->
  step w (RealtimeInsert c row)
  = with_component (phase w) (props w)
      (as_Notification row :: localNotifications w)
      (localShowNotifications w) (effect_cleanup w) w.
Proof.
  intros Hm Hc. cbn [step]. rewrite Hc.
  cbn [notifications_channel callback perform_all foldl perform].
  rewrite Hm. reflexivity.
Qed.

Lemma resolve_fetch_session w i c session :
  tasks w !! i = Some (Some (initialize_awaits c fetchNotifications)) ->
  let w' := step w (Resolve i (session_is (Some session))) in
  tasks w' !! i = Some (Some (initialize_awaits c (fetch_awaits_rows session))) /\
  localNotifications w' = localNotifications w /\
  phase w' = phase w /\ channels w' = channels w.
Proof.
  intros Hi w'. subst w'. cbn [step].
  assert (Hlt : (i < length (tasks w))%nat) by (eapply lookup_lt_Some; eassumption).
  erewrite resolve_await; [|exact Hi|reflexivity].
  cbn. repeat split. apply list_lookup_insert_eq. exact Hlt.
Qed.

(** C8.  While the initial fetch is outstanding (whether
    [fetchNotifications] still waits for the session or already for the
    rows), a realtime insert puts its row at the front of the local list.
    When the fetch then resolves, the list becomes exactly the rows
    returned: nothing is merged, so the inserted row is gone unless the
    fetch returned it. *)
Theorem insert_before_fetch_is_overwritten (w : World) (i c : nat)
    (session : Session) (row : Row) (table : list Row) (es : list Event) :
  is_mounted w = true ->
  channels w !! c = Some (notifications_channel session) ->
  (tasks w !! i = Some (Some (initialize_awaits c fetchNotifications)) /\
   es = [Resolve i (session_is (Some session)); Resolve i (rows_of table)])
  \/
  (tasks w !! i = Some (Some (initialize_awaits c (fetch_awaits_rows session))) /\
   es = [Resolve i (rows_of table)]) ->
  let returned :=
    as_Notification <$> run_query (unread_of (user_ident (user session))) table in
  let w1 := step w (RealtimeInsert c row) in
  let w2 := run w1 es in
  localNotifications w1 = as_Notification row :: localNotifications w /\
  localNotifications w2 = returned /\
  (~ In (as_Notification row) returned ->
   ~ In (as_Notification row) (localNotifications w2)).
Proof.
  intros Hm Hc Hstage returned w1 w2.
  pose proof (realtime_insert_prepends w c session row Hm Hc) as H1.
  fold w1 in H1.
  assert (Hm1 : is_mounted w1 = true) by (rewrite H1; exact Hm).
  assert (Ht1 : tasks w1 = tasks w) by (rewrite H1; reflexivity).
  assert (Hw2 : localNotifications w2 = returned).
  { subst w2. destruct Hstage as [[Hi ->]|[Hi ->]]; rewrite <- Ht1 in Hi.
    - cbn [run foldl].
      destruct (resolve_fetch_session w1 i c session Hi) as (Hi' & _ & Hph & _).
      destruct (resolve_fetch _ i c session (rows_of table) _ Hi' eq_refl)
        as [[H _] _].
      apply H. unfold is_mounted in *. rewrite Hph. exact Hm1.
    - cbn [run foldl].
      destruct (resolve_fetch w1 i c session (rows_of table) _ Hi eq_refl)
        as [[H _] _].
      apply H, Hm1. }
  split; [rewrite H1; reflexivity|]. split; [exact Hw2|].
  rewrite Hw2. tauto.
Qed.

Lemma insert_before_fetch_is_overwritten_witness :
  let w := run init [Mount init_props; Resolve 0 (session_is (Some a_session))] in
  let row := a_row "u1" 9 false "2024-02-01T09:00:00" in
  let w1 := step w (RealtimeInsert 0 row) in
  let w2 := run w1 [Resolve 0 (session_is (Some a_session));
                    Resolve 0 (rows_of a_table)] in
  (is_mounted w = true /\
   channels w !! 0%nat = Some (notifications_channel a_session) /\
   tasks w !! 0%nat = Some (Some (initialize_awaits 0 fetchNotifications))) /\
  localNotifications w1 = [as_Notification row] /\
  ~ In (as_Notification row) (localNotifications w2).
Proof.
  split; [repeat split; vm_compute; reflexivity|].
  pose proof (insert_before_fetch_is_overwritten
    (run init [Mount init_props; Resolve 0 (session_is (Some a_session))])
    0 0 a_session (a_row "u1" 9 false "2024-02-01T09:00:00") a_table
    [Resolve 0 (session_is (Some a_session)); Resolve 0 (rows_of a_table)]
    eq_refl eq_refl (or_introl (conj eq_refl eq_refl))) as (H1 & _ & H3).
  split; [exact H1|]. apply H3.
  vm_compute. intros [H|[H|[H|[]]]]; discriminate H.
Defined.

(** ** The unread invariant *)

Lemma fetchNotifications_keeps_unread :
  prog_ok keeps_unread unread_channel any_req fetchNotifications.
Proof.
  split; [exact I|].
  intros x [session|] _; [|exact I].
  split; [exact I|].
  intros [table| | |e| ] v; try discriminate; intros [= <-]; cbn.
  - split; [|exact I]. intros l _ notif Hin.
    apply in_map_iff in Hin as (row & <- & Hrow).
    apply (unread_of_rows (user_ident (user session)) table row Hrow).
  - split; [|exact I]. intros l _ notif [].
  - split; exact I.
Qed.

Lemma initialize_keeps_unread :
  prog_ok keeps_unread unread_channel any_req (ignore initialize).
Proof.
  unfold ignore. apply prog_ok_bind; [|intros; exact I].
  split; [exact I|].
  intros x [session|] _; [|exact I].
  split.
  - intros row Hrow. repeat constructor.
    intros l Hl notif [<-|Hin]; [exact Hrow | apply Hl, Hin].
  - intros c. cbn [bind]. apply prog_ok_bind; [|intros; exact I].
    apply fetchNotifications_keeps_unread.
Qed.

Lemma handleMarkNotificationAsRead_keeps_unread p i :
  prog_ok keeps_unread unread_channel any_req (handleMarkNotificationAsRead p i).
Proof.
  unfold handleMarkNotificationAsRead.
  destruct (markNotificationAsRead p) as [fn|].
  - split; [exact I|]. intros; exact I.
  - split; [exact I|].
    intros x [err|] _; cbn; (split; [|exact I]); [exact I|].
    intros l Hl notif [Hin _]%filter_In. apply Hl, Hin.
Qed.

Lemma handleLogout_keeps_unread :
  prog_ok keeps_unread unread_channel any_req handleLogout.
Proof.
  split; [exact I|]. intros x [err|] _; cbn; repeat split.
Qed.

Lemma unread_world_ok (es : list Event) :
  Forall (event_ok any_props unread_row) es ->
  world_ok keeps_unread unread_channel any_req unread_world (run init es).
Proof.
  intros Hes.
  apply (run_ok keeps_unread unread_channel any_req any_props unread_row
           unread_world); try assumption.
  - intros a w Ha Hw. unfold unread_world in *.
    destruct a; simpl; try destruct (is_mounted w); simpl; auto.
  - intros; assumption.
  - intros; assumption.
  - intros; assumption.
  - intros; assumption.
  - intros p w _ notif [].
  - intros ch row Hch Hrow. apply Hch, Hrow.
  - intros; apply initialize_keeps_unread.
  - apply handleMarkNotificationAsRead_keeps_unread.
  - apply handleLogout_keeps_unread.
  - intros p b. unfold handleToggleNotifications.
    destruct (toggleNotifications p); repeat constructor.
  - split; [intros notif []| | |]; cbn.
    + intros i t Hi. rewrite lookup_nil in Hi. discriminate.
    + intros c ch Hc. rewrite lookup_empty in Hc. discriminate.
    + discriminate.
Qed.

(** C3, as the code has it.  The fetch asks for unread rows only and a
    mark-read only removes entries, but the insert callback prepends the
    row it is given without looking at [is_read].  So: as long as every
    realtime insert delivers an unread row, no entry of the local list,
    and in local mode of the displayed list, has [is_read = true], in
    any state reached by any sequence of events. *)
Theorem local_list_stays_unread (es : list Event) :
  (forall c row, In (RealtimeInsert c row) es ->
     is_read (as_Notification row) = false) ->
  let w := run init es in
  (forall notif, In notif (localNotifications w) -> is_read notif = false) /\
  (notifications (props w) = None ->
   forall notif,
     In notif (shown_notifications (props w) (localNotifications w)) ->
     is_read notif = false).
Proof.
  intros Hes w.
  assert (Hw : unread_world w).
  { eapply data_ok, unread_world_ok.
    apply List.Forall_forall. intros [p|p| |i x|c row| |i| ] Hin; cbn; try exact I.
    apply (Hes c), Hin. }
  split; [exact Hw|].
  intros Hn. unfold shown_notifications. rewrite Hn. exact Hw.
Qed.

Lemma local_list_stays_unread_witness :
  let es := [Mount init_props; Resolve 0 (session_is (Some a_session));
             RealtimeInsert 0 (a_row "u1" 9 false "2024-02-01T09:00:00");
             Resolve 0 (session_is (Some a_session));
             Resolve 0 (rows_of a_table);
             RealtimeInsert 0 (a_row "u1" 10 false "2024-02-02T09:00:00");
             ClickBell; ClickNotification 1; Resolve 1 ok] in
  (forall c row, In (RealtimeInsert c row) es ->
     is_read (as_Notification row) = false) /\
  length (localNotifications (run init es)) = 3%nat /\
  forall notif, In notif (localNotifications (run init es)) ->
    is_read notif = false.
Proof.
  assert (H : forall c row,
    In (RealtimeInsert c row)
       [Mount init_props; Resolve 0 (session_is (Some a_session));
        RealtimeInsert 0 (a_row "u1" 9 false "2024-02-01T09:00:00");
        Resolve 0 (session_is (Some a_session));
        Resolve 0 (rows_of a_table);
        RealtimeInsert 0 (a_row "u1" 10 false "2024-02-02T09:00:00");
        ClickBell; ClickNotification 1; Resolve 1 ok] ->
    is_read (as_Notification row) = false).
  { intros c row Hin. cbn in Hin.
    repeat (destruct Hin as [Hin|Hin]; [try discriminate Hin|]);
      try (injection Hin as _ <-; reflexivity).
    destruct Hin. }
  split; [exact H|]. split; [vm_compute; reflexivity|].
  exact (proj1 (local_list_stays_unread _ H)).
Defined.

(** C3 as stated fails: an insert event whose row is already read is
    prepended like any other and is then displayed. *)
Lemma read_row_is_displayed :
  let w := run init [Mount init_props; Resolve 0 (session_is (Some a_session));
                     Resolve 0 (session_is (Some a_session));
                     Resolve 0 (rows_of a_table);
                     RealtimeInsert 0 (a_row "u1" 9 true "2024-02-01T09:00:00")] in
  notifications (props w) = None /\
  exists notif,
    hd_error (shown_notifications (props w) (localNotifications w)) = Some notif
    /\ is_read notif = true.
Proof.
  cbv zeta. split; [vm_compute; reflexivity|].
  exists (a_notification 9 true "2024-02-01T09:00:00").
  split; vm_compute; reflexivity.
Qed.

(** ** Display-only mode: the external list *)

Lemma quiet_world_ok (es : list Event) :
  Forall (event_ok list_supplied any_row) es ->
  world_ok any_act no_channel not_a_fetch quiet_world (run init es).
Proof.
  intros Hes.
  apply (run_ok any_act no_channel not_a_fetch list_supplied any_row
           quiet_world); try assumption.
  - intros a w _ [Hc Hr]. split.
    + destruct a; simpl; try destruct (is_mounted w); simpl; try exact Hc.
      all: rewrite Hc; apply delete_empty.
    + destruct a; simpl; try destruct (is_mounted w); simpl; exact Hr.
  - intros ch w [].
  - intros r w Hr [Hc Hrs]. split; [exact Hc|].
    intros r' [Hin|[<-|[]]]%in_app_or; [apply Hrs, Hin | exact Hr].
  - intros; assumption.
  - intros; assumption.
  - intros; assumption.
  - intros ch row [].
  - intros p Hp Hn. destruct (Hp Hn).
  - intros p i. unfold handleMarkNotificationAsRead.
    destruct (markNotificationAsRead p) as [fn|].
    + split; [exact I|]. intros; exact I.
    + split; [exact I|]. intros x [err|] _; cbn; repeat split.
  - split; [exact I|]. intros x [err|] _; cbn; repeat split.
  - intros p b. unfold handleToggleNotifications.
    destruct (toggleNotifications p); repeat constructor.
  - split; [split; [reflexivity | intros r []]| | |]; cbn.
    + intros i t Hi. rewrite lookup_nil in Hi. discriminate.
    + intros c ch Hc. rewrite lookup_empty in Hc. discriminate.
    + discriminate.
Qed.

(** C2, as the code has it.  The effect looks at the external list only.
    If every render of the component passes an external list, then no
    realtime channel is ever opened, and no session lookup and no select
    is ever issued, whatever else happens; the list displayed is the
    external one. *)
Theorem external_list_no_fetch_no_subscription (es : list Event) :
  (forall p, In (Mount p) es \/ In (Render p) es -> notifications p <> None) ->
  let w := run init es in
  channels w = ∅ /\
  (forall r, In r (requests w) -> r <> getSession /\ forall q, r <> run_select q) /\
  (forall ext, notifications (props w) = Some ext ->
     shown_notifications (props w) (localNotifications w) = items ext).
Proof.
  intros Hes w.
  assert (Hw : quiet_world w).
  { eapply data_ok, quiet_world_ok.
    apply List.Forall_forall. intros [p|p| |i x|c row| |i| ] Hin; cbn; try exact I.
    - apply Hes. left; exact Hin.
    - apply Hes. right; exact Hin. }
  destruct Hw as [Hc Hr]. split; [exact Hc|]. split.
  - intros r Hin. specialize (Hr r Hin).
    split; [|intros q]; intros ->; exact Hr.
  - intros ext Hn. unfold shown_notifications. rewrite Hn. reflexivity.
Qed.

Lemma external_list_no_fetch_no_subscription_witness :
  let es := [Mount display_only_props; ClickBell; ClickNotification 0;
             Resolve 0 ok; ClickLogout] in
  (forall p, In (Mount p) es \/ In (Render p) es -> notifications p <> None) /\
  channels (run init es) = ∅ /\
  requests (run init es)
  = [run_update {| u_table := "notifications";
                   u_set := [("is_read", VBool true)];
                   u_eq := [("id", VNum 4)] |};
     signOut].
Proof.
  assert (H : forall p,
    In (Mount p) [Mount display_only_props; ClickBell; ClickNotification 0;
                  Resolve 0 ok; ClickLogout] \/
    In (Render p) [Mount display_only_props; ClickBell; ClickNotification 0;
                   Resolve 0 ok; ClickLogout] ->
    notifications p <> None).
  { intros p [Hin|Hin]; cbn in Hin;
      repeat (destruct Hin as [Hin|Hin]; [try discriminate Hin|]);
      try (injection Hin as <-; discriminate); destruct Hin. }
  split; [exact H|].
  split; [exact (proj1 (external_list_no_fetch_no_subscription _ H))|].
  vm_compute. reflexivity.
Defined.

(** C2 as stated fails: with the toggle function, the mark-read function
    and the visibility flag all supplied but no list, the component still
    subscribes and fetches. *)
Lemma handlers_only_still_fetches :
  let p := {| role := user_role; notifications := None;
              toggleNotifications := Some (parent_fn 1);
              markNotificationAsRead := Some (parent_fn 2);
              showNotifications := Some true |} in
  let w := run init [Mount p; Resolve 0 (session_is (Some a_session));
                     Resolve 0 (session_is (Some a_session))] in
  any_notification_prop p = true /\
  channels w !! 0%nat = Some (notifications_channel a_session) /\
  requests w = [getSession; getSession; run_select (unread_of "u1")].
Proof. cbv zeta. repeat split; vm_compute; reflexivity. Qed.

(** ** The realtime channel and deactivation *)

(** The promise of [initialize] resolves to a closure that would remove
    the channel; the effect callback never looks at that promise. *)
Lemma initialize_resolves_to_cleanup session table w :
  let (w', result) :=
    settle initialize
      [session_is (Some session); session_is (Some session); rows_of table] w in
  result = Some (Some [removeChannel (next_channel w)]) /\
  channels w' !! next_channel w = Some (notifications_channel session) /\
  channels (perform_all [removeChannel (next_channel w)] w') !! next_channel w
  = None.
Proof.
  cbn. unfold is_mounted. cbn. destruct (phase w); cbn; repeat split;
    first [apply lookup_insert_eq | apply lookup_delete_eq].
Qed.

Lemma Header_effect_no_cleanup p w : (Header_effect p w).2 = None.
Proof. unfold Header_effect. destruct (negb _); reflexivity. Qed.

Lemma fetchNotifications_no_remove :
  prog_ok no_remove no_remove_channel any_req fetchNotifications.
Proof.
  split; [exact I|]. intros x [session|] _; [|exact I].
  split; [exact I|]. intros x' [d [err|]] _; cbn; repeat split.
Qed.

Lemma initialize_no_remove :
  prog_ok no_remove no_remove_channel any_req (ignore initialize).
Proof.
  unfold ignore. apply prog_ok_bind; [|intros; exact I].
  split; [exact I|]. intros x [session|] _; [|exact I].
  split.
  - intros row. repeat constructor.
  - intros c. cbn [bind]. apply prog_ok_bind; [|intros; exact I].
    apply fetchNotifications_no_remove.
Qed.

Lemma handleMarkNotificationAsRead_no_remove p i :
  prog_ok no_remove no_remove_channel any_req (handleMarkNotificationAsRead p i).
Proof.
  unfold handleMarkNotificationAsRead.
  destruct (markNotificationAsRead p) as [fn|].
  - split; [exact I|]. intros; exact I.
  - split; [exact I|]. intros x [err|] _; cbn; repeat split.
Qed.

Lemma handleLogout_no_remove :
  prog_ok no_remove no_remove_channel any_req handleLogout.
Proof. split; [exact I|]. intros x [err|] _; cbn; repeat split. Qed.

Lemma handleToggleNotifications_no_remove p b :
  Forall no_remove (handleToggleNotifications p b).
Proof.
  unfold handleToggleNotifications.
  destruct (toggleNotifications p); repeat constructor.
Qed.

Lemma fresh_perform a w : no_remove a -> fresh_channels w -> fresh_channels (perform a w).
Proof.
  intros Ha Hw. destruct a; try destruct Ha; simpl;
    try destruct (is_mounted w); exact Hw.
Qed.

Lemma fresh_open ch w : fresh_channels w -> fresh_channels (open_channel ch w).
Proof.
  intros Hw c. cbn. rewrite lookup_insert. case_decide.
  - intros _. lia.
  - intros H'. apply Hw in H'. lia.
Qed.

Lemma fresh_channels_ok (es : list Event) :
  world_ok no_remove no_remove_channel any_req fresh_channels (run init es).
Proof.
  apply (run_ok no_remove no_remove_channel any_req any_props any_row
           fresh_channels).
  - apply fresh_perform.
  - intros ch w _. apply fresh_open.
  - intros; assumption.
  - intros; assumption.
  - intros; assumption.
  - intros; assumption.
  - intros ch row Hch _. apply Hch.
  - intros; apply initialize_no_remove.
  - apply handleMarkNotificationAsRead_no_remove.
  - apply handleLogout_no_remove.
  - apply handleToggleNotifications_no_remove.
  - apply List.Forall_forall. intros [p|p| |i x|c row| |i| ] _; exact I.
  - split; cbn.
    + intros c [ch Hc]. unfold init in Hc. cbn [channels] in Hc.
      rewrite lookup_empty in Hc. discriminate.
    + intros i t Hi. rewrite lookup_nil in Hi. discriminate.
    + intros c ch Hc. rewrite lookup_empty in Hc. discriminate.
    + discriminate.
Qed.

(** No event whatsoever, unmounting and re-rendering with an external
    list included, closes a channel that the component has opened. *)
Lemma channel_never_released (es1 es2 : list Event) (c : nat) (ch : Channel) :
  channels (run init es1) !! c = Some ch ->
  channels (run init (es1 ++ es2)) !! c = Some ch.
Proof.
  intros Hc. rewrite run_app.
  destruct (fresh_channels_ok es1) as [HJ Ht Hch Hcl].
  eapply (data_ok no_remove no_remove_channel any_req (keeps_channel c ch)).
  apply (run_ok no_remove no_remove_channel any_req any_props any_row
           (keeps_channel c ch)).
  - intros a w Ha [Hf Hw]. split; [apply fresh_perform; assumption|].
    destruct a; try destruct Ha; simpl; try destruct (is_mounted w); exact Hw.
  - intros ch' w _ [Hf Hw]. split; [apply fresh_open, Hf|].
    cbn. rewrite lookup_insert_ne; [exact Hw|].
    assert (c < next_channel w)%nat by (apply Hf; eauto). lia.
  - intros; assumption.
  - intros; assumption.
  - intros; assumption.
  - intros; assumption.
  - intros ch' row Hch' _. apply Hch'.
  - intros; apply initialize_no_remove.
  - apply handleMarkNotificationAsRead_no_remove.
  - apply handleLogout_no_remove.
  - apply handleToggleNotifications_no_remove.
  - apply List.Forall_forall. intros [p|p| |i x|c' row| |i| ] _; exact I.
  - split; [split|..]; assumption.
Qed.

(** C1 fails on the code.  Mounted in local mode with a session, the
    component opens the channel; the cleanup that would remove it never
    reaches React, so after unmounting, or after a re-render that now
    supplies an external list, the channel is still open. *)
Theorem deactivation_leaves_channel_open (r : Role) (t m : option ParentFn)
    (vis : option bool) (session : Session) (external : JsArray) :
  let local := {| role := r; notifications := None; toggleNotifications := t;
                  markNotificationAsRead := m; showNotifications := vis |} in
  let display_only :=
    {| role := r; notifications := Some external; toggleNotifications := t;
       markNotificationAsRead := m; showNotifications := vis |} in
  let w := run init [Mount local; Resolve 0 (session_is (Some session))] in
  channels w !! 0%nat = Some (notifications_channel session) /\
  effect_cleanup w = None /\
  phase (step w Unmount) = Removed /\
  channels (step w Unmount) !! 0%nat = Some (notifications_channel session) /\
  channels (step w (Render display_only)) !! 0%nat
  = Some (notifications_channel session).
Proof. cbv zeta. repeat split; vm_compute; reflexivity. Qed.

(** * Further properties of the component *)

(** ** What the handlers leave alone *)

Lemma perform_props a w : props (perform a w) = props w.
Proof. destruct a; simpl; try destruct (is_mounted w); reflexivity. Qed.

Lemma perform_requests a w : requests (perform a w) = requests w.
Proof. destruct a; simpl; try destruct (is_mounted w); reflexivity. Qed.

Lemma perform_all_props acts w : props (perform_all acts w) = props w.
Proof.
  revert w; induction acts as [|a acts IH]; intros w; simpl; [reflexivity|].
  rewrite IH. apply perform_props.
Qed.

Lemma perform_all_cleanup acts w :
  effect_cleanup (perform_all acts w) = effect_cleanup w.
Proof.
  revert w; induction acts as [|a acts IH]; intros w; simpl; [reflexivity|].
  rewrite IH. apply perform_cleanup.
Qed.

Lemma exec_props {A} (p : Prog A) w : props (exec p w).1 = props w.
Proof.
  revert w; induction p as [a|r k IH|a k IH|ch k IH]; intros w; simpl; auto.
  - rewrite IH. apply perform_props.
  - rewrite IH. reflexivity.
Qed.

Lemma exec_cleanup {A} (p : Prog A) w :
  effect_cleanup (exec p w).1 = effect_cleanup w.
Proof.
  revert w; induction p as [a|r k IH|a k IH|ch k IH]; intros w; simpl; auto.
  - rewrite IH. apply perform_cleanup.
  - rewrite IH. reflexivity.
Qed.

Lemma spawn_props p w : props (spawn p w) = props w.
Proof.
  unfold spawn. pose proof (exec_props p w) as H.
  destruct (exec p w) as [w' rest]; simpl in H.
  destruct (suspended rest); simpl; exact H.
Qed.

Lemma spawn_cleanup p w : effect_cleanup (spawn p w) = effect_cleanup w.
Proof.
  unfold spawn. pose proof (exec_cleanup p w) as H.
  destruct (exec p w) as [w' rest]; simpl in H.
  destruct (suspended rest); simpl; exact H.
Qed.

Lemma resolve_props i x w : props (resolve i x w) = props w.
Proof.
  unfold resolve.
  destruct (tasks w !! i) as [[[a|r k|a k|ch k]|]|]; try reflexivity.
  destruct (accept r x) as [v|]; [|reflexivity].
  pose proof (exec_props (k v) w) as H.
  destruct (exec (k v) w) as [w' rest]; simpl in H. exact H.
Qed.

Lemma resolve_cleanup i x w : effect_cleanup (resolve i x w) = effect_cleanup w.
Proof.
  unfold resolve.
  destruct (tasks w !! i) as [[[a|r k|a k|ch k]|]|]; try reflexivity.
  destruct (accept r x) as [v|]; [|reflexivity].
  pose proof (exec_cleanup (k v) w) as H.
  destruct (exec (k v) w) as [w' rest]; simpl in H. exact H.
Qed.

Lemma step_props w e : same_props e -> props (step w e) = props w.
Proof.
  intros He. destruct e as [p|p| |i x|c row| |i| ]; try destruct He; cbn [step].
  - destruct (is_mounted w); [|reflexivity].
    unfold run_cleanup. destruct (effect_cleanup w); cbn; [|reflexivity].
    apply perform_all_props.
  - apply resolve_props.
  - destruct (channels w !! c); [apply perform_all_props | reflexivity].
  - destruct (is_mounted w); [apply perform_all_props | reflexivity].
  - destruct (dropdown (view w)) as [shown|]; [|reflexivity].
    destruct (shown !! i); [|reflexivity].
    destruct (is_mounted w); [apply spawn_props | reflexivity].
  - destruct (is_mounted w); [apply spawn_props | reflexivity].
Qed.

Lemma run_props w es : Forall same_props es -> props (run w es) = props w.
Proof.
  intros Hes; revert w; induction Hes as [|e es He _ IH]; intros w; simpl.
  - reflexivity.
  - rewrite IH. apply step_props, He.
Qed.

Lemma run_effect_cleanup p w : effect_cleanup (run_effect p w) = None.
Proof.
  unfold run_effect. pose proof (Header_effect_no_cleanup p w) as H.
  destruct (Header_effect p w) as [w' c]; simpl in H. subst c. reflexivity.
Qed.

(** React never holds a cleanup for the effect. *)
Lemma step_cleanup_none w e :
  effect_cleanup w = None -> effect_cleanup (step w e) = None.
Proof.
  intros Hw. destruct e as [p|p| |i x|c row| |i| ]; cbn [step].
  - destruct (phase w); try exact Hw. apply run_effect_cleanup.
  - destruct (is_mounted w); [|exact Hw].
    destruct (negb _); [apply run_effect_cleanup | exact Hw].
  - destruct (is_mounted w); [reflexivity | exact Hw].
  - rewrite resolve_cleanup. exact Hw.
  - destruct (channels w !! c); [rewrite perform_all_cleanup|]; exact Hw.
  - destruct (is_mounted w); [rewrite perform_all_cleanup|]; exact Hw.
  - destruct (dropdown (view w)) as [shown|]; [|exact Hw].
    destruct (shown !! i); [|exact Hw].
    destruct (is_mounted w); [rewrite spawn_cleanup|]; exact Hw.
  - destruct (is_mounted w); [rewrite spawn_cleanup|]; exact Hw.
Qed.

Lemma run_cleanup_none es : effect_cleanup (run init es) = None.
Proof.
  induction es as [|e es IH] using rev_ind; [reflexivity|].
  rewrite run_app. apply step_cleanup_none, IH.
Qed.

(** ** No session *)

Lemma empty_world_ok (w : World) (es : list Event) :
  Forall same_props es ->
  world_ok keeps_empty no_channel not_a_select empty_world w ->
  world_ok keeps_empty no_channel not_a_select empty_world (run w es).
Proof.
  intros Hes Hw.
  apply (run_ok keeps_empty no_channel not_a_select no_props any_row
           empty_world); [..|exact Hes|exact Hw].
  - intros a w' Ha (Hc & Hr & Hl). repeat split.
    + destruct a; simpl; try destruct (is_mounted w'); simpl; try exact Hc.
      all: rewrite Hc; apply delete_empty.
    + destruct a; simpl; try destruct (is_mounted w'); simpl; exact Hr.
    + destruct a; simpl; try destruct (is_mounted w'); simpl; try exact Hl.
      rewrite Hl. exact Ha.
  - intros ch w' [].
  - intros r w' Hr (Hc & Hrs & Hl). repeat split; try assumption.
    intros r' [Hin|[<-|[]]]%in_app_or; [apply Hrs, Hin | exact Hr].
  - intros; assumption.
  - intros; assumption.
  - intros p w' (Hc & Hr & _). repeat split; assumption.
  - intros ch row [].
  - intros p [].
  - intros p i. unfold handleMarkNotificationAsRead.
    destruct (markNotificationAsRead p) as [fn|].
    + split; [exact I|]. intros; exact I.
    + split; [exact I|]. intros x [err|] _; cbn; repeat split.
  - split; [exact I|]. intros x [err|] _; cbn; repeat split.
  - intros p b. unfold handleToggleNotifications.
    destruct (toggleNotifications p); repeat constructor.
Qed.

(** X1.  Mounted in local mode while nobody is signed in, the component
    subscribes nothing and fetches nothing, and, as long as it is not
    re-rendered with other props, no click, settled promise or realtime
    event changes that: no channel, no select, an empty list, no badge. *)
Theorem no_session_stays_empty (r : Role) (t m : option ParentFn)
    (vis : option bool) (es : list Event) :
  Forall same_props es ->
  let p := {| role := r; notifications := None; toggleNotifications := t;
              markNotificationAsRead := m; showNotifications := vis |} in
  let w0 := run init [Mount p; Resolve 0 (session_is None)] in
  let w := run w0 es in
  (requests w0 = [getSession] /\ tasks w0 = [None]) /\
  channels w = ∅ /\
  (forall q, ~ In (run_select q) (requests w)) /\
  localNotifications w = [] /\
  badge (view w) = None.
Proof.
  intros Hes p w0 w.
  assert (H0 : world_ok keeps_empty no_channel not_a_select empty_world w0).
  { split.
    - repeat split; try reflexivity.
      intros q [<-|[]]. exact I.
    - intros i task Hi. destruct i as [|i]; cbn in Hi; discriminate.
    - intros c ch Hc. cbn in Hc. rewrite lookup_empty in Hc. discriminate.
    - intros acts Hc. cbn in Hc. discriminate. }
  destruct (data_ok _ _ _ _ _ (empty_world_ok w0 es Hes H0)) as (Hc & Hr & Hl).
  fold w in Hc, Hr, Hl.
  split; [split; reflexivity|].
  split; [exact Hc|]. split; [|split; [exact Hl|]].
  - intros q Hin. exact (Hr _ Hin).
  - unfold view, render, badge, shown_notifications.
    unfold w. rewrite (run_props w0 es Hes). fold w. rewrite Hl. reflexivity.
Qed.

Lemma no_session_stays_empty_witness :
  let es := [ClickBell; RealtimeInsert 0 (a_row "u1" 9 false "2024-02-01T09:00:00");
             ClickNotification 0; ClickLogout; Resolve 1 ok] in
  Forall same_props es /\
  localNotifications
    (run (run init [Mount init_props; Resolve 0 (session_is None)]) es) = [].
Proof.
  assert (H : Forall same_props
    [ClickBell; RealtimeInsert 0 (a_row "u1" 9 false "2024-02-01T09:00:00");
     ClickNotification 0; ClickLogout; Resolve 1 ok]).
  { repeat constructor. }
  split; [exact H|].
  exact (proj1 (proj2 (proj2 (proj2
    (no_session_stays_empty user_role None None None _ H))))).
Defined.

(** X2.  When the session is gone by the time [fetchNotifications] asks
    for it, the function returns silently: no select is issued, nothing
    is logged, the list is left as it is and the channel that
    [initialize] has already subscribed stays open. *)
Theorem fetch_without_session_is_silent (w : World) (i c : nat) :
  tasks w !! i = Some (Some (initialize_awaits c fetchNotifications)) ->
  let w' := step w (Resolve i (session_is None)) in
  requests w' = requests w /\
  console w' = console w /\
  localNotifications w' = localNotifications w /\
  channels w' = channels w /\
  tasks w' !! i = Some None.
Proof.
  intros Hi w'. subst w'. cbn [step].
  assert (Hlt : (i < length (tasks w))%nat) by (eapply lookup_lt_Some; eassumption).
  erewrite resolve_await; [|exact Hi|reflexivity].
  cbn. repeat split. apply list_lookup_insert_eq. exact Hlt.
Qed.

Lemma fetch_without_session_is_silent_witness :
  let w := run init [Mount init_props; Resolve 0 (session_is (Some a_session));
                     RealtimeInsert 0 (a_row "u1" 9 false "2024-02-01T09:00:00")] in
  let w' := step w (Resolve 0 (session_is None)) in
  tasks w !! 0%nat = Some (Some (initialize_awaits 0 fetchNotifications)) /\
  requests w' = [getSession; getSession] /\
  localNotifications w' = [a_notification 9 false "2024-02-01T09:00:00"] /\
  channels w' !! 0%nat = Some (notifications_channel a_session).
Proof.
  assert (Hi : tasks (run init [Mount init_props;
                                Resolve 0 (session_is (Some a_session));
                                RealtimeInsert 0
                                  (a_row "u1" 9 false "2024-02-01T09:00:00")])
               !! 0%nat
               = Some (Some (initialize_awaits 0 fetchNotifications)))
    by (vm_compute; reflexivity).
  split; [exact Hi|].
  destruct (fetch_without_session_is_silent _ 0 0 Hi) as (Hr & _ & Hl & Hc & _).
  split; [rewrite Hr; vm_compute; reflexivity|].
  split; [rewrite Hl; vm_compute; reflexivity|].
  rewrite Hc. vm_compute. reflexivity.
Defined.

(** ** Re-rendering *)

Lemma spawn_initialize w :
  spawn (ignore initialize) w
  = with_tasks (tasks w ++ [Some (ignore initialize)]) (issue getSession w).
Proof. reflexivity. Qed.

(** X3.  A re-render keeps the local state.  It starts [initialize]
    again, with one new session lookup, exactly when the previous render
    had an external list and the new one has none; when the list prop is
    absent in both, or present in the new one, nothing is started. *)
Theorem rerender_starts_initialize_on_list_removal (es : list Event)
    (p : HeaderProps) :
  let w := run init es in
  is_mounted w = true ->
  let w' := step w (Render p) in
  let activated :=
    truthy (notifications (props w)) && negb (truthy (notifications p)) in
  props w' = p /\
  localNotifications w' = localNotifications w /\
  localShowNotifications w' = localShowNotifications w /\
  channels w' = channels w /\
  requests w' = requests w ++ (if activated then [getSession] else []) /\
  tasks w' = tasks w ++ (if activated then [Some (ignore initialize)] else []).
Proof.
  intros w Hm w' activated. subst w' activated. cbn [step]. rewrite Hm.
  pose proof (run_cleanup_none es) as Hc. fold w in Hc.
  unfold run_cleanup, run_effect, Header_effect. cbn [effect_cleanup with_component].
  rewrite Hc.
  destruct (notifications (props w)) as [old|], (notifications p) as [new|];
    cbn [Object_is truthy negb andb].
  - destruct (Nat.eqb (ref old) (ref new)); cbn;
      rewrite !app_nil_r; repeat split.
  - rewrite spawn_initialize. cbn. repeat split.
  - cbn. rewrite !app_nil_r. repeat split.
  - cbn. rewrite !app_nil_r. repeat split.
Qed.

Lemma rerender_starts_initialize_on_list_removal_witness :
  let es := [Mount display_only_props] in
  is_mounted (run init es) = true /\
  requests (step (run init es) (Render init_props)) = [getSession] /\
  requests (step (run init [Mount init_props]) (Render init_props))
  = [getSession].
Proof.
  split; [reflexivity|].
  pose proof (rerender_starts_initialize_on_list_removal
                [Mount display_only_props] init_props eq_refl)
    as (_ & _ & _ & _ & H1 & _).
  pose proof (rerender_starts_initialize_on_list_removal
                [Mount init_props] init_props eq_refl)
    as (_ & _ & _ & _ & H2 & _).
  split; [exact H1 | exact H2].
Defined.

(** X4.  What the parent supplies is what is shown.  While an external
    list is passed, no click, settled promise, realtime event or unmount
    changes the displayed list; while an external visibility flag is
    passed, none of them opens or closes the dropdown (a bell click with
    no external toggle only flips the hidden local flag). *)
Theorem external_display_is_insulated (w : World) (e : Event) :
  same_props e ->
  (forall ext, notifications (props w) = Some ext ->
     shown_notifications (props (step w e)) (localNotifications (step w e))
     = items ext) /\
  (forall b, showNotifications (props w) = Some b -> visible (step w e) = b).
Proof.
  intros He. pose proof (step_props w e He) as Hp. split.
  - intros ext Hn. unfold shown_notifications. rewrite Hp, Hn. reflexivity.
  - intros b Hs. unfold visible, shown_showNotifications. rewrite Hp, Hs.
    reflexivity.
Qed.

Lemma external_display_is_insulated_witness :
  let p := {| role := user_role; notifications := Some an_external_list;
              toggleNotifications := None; markNotificationAsRead := None;
              showNotifications := Some true |} in
  let w := run init [Mount p; ClickNotification 0] in
  same_props (Resolve 0 ok) /\
  (notifications (props w) = Some an_external_list /\
   showNotifications (props w) = Some true) /\
  requests w = [run_update {| u_table := "notifications";
                              u_set := [("is_read", VBool true)];
                              u_eq := [("id", VNum 4)] |}] /\
  shown_notifications (props (step w (Resolve 0 ok)))
    (localNotifications (step w (Resolve 0 ok)))
  = [a_notification 4 false "2024-01-04T09:00:00"] /\
  visible (step w ClickBell) = true.
Proof.
  split; [exact I|]. split; [split; reflexivity|].
  split; [vm_compute; reflexivity|].
  split.
  - exact (proj1 (external_display_is_insulated
      (run init [Mount {| role := user_role;
                          notifications := Some an_external_list;
                          toggleNotifications := None;
                          markNotificationAsRead := None;
                          showNotifications := Some true |};
                 ClickNotification 0])
      (Resolve 0 ok) I) an_external_list eq_refl).
  - exact (proj2 (external_display_is_insulated
      (run init [Mount {| role := user_role;
                          notifications := Some an_external_list;
                          toggleNotifications := None;
                          markNotificationAsRead := None;
                          showNotifications := Some true |};
                 ClickNotification 0])
      ClickBell I) true eq_refl).
Defined.

(** ** Clicking a notification *)

(** X5.  In local mode a click on a displayed notification sends one
    update, [is_read = true] for the row with the clicked id, and waits:
    the list, the badge and the dropdown are untouched until the update
    has succeeded. *)
Theorem click_sends_update_and_waits (w : World) (i : nat) (notif : Notification) :
  is_mounted w = true ->
  visible w = true ->
  shown_notifications (props w) (localNotifications w) !! i = Some notif ->
  markNotificationAsRead (props w) = None ->
  let w' := step w (ClickNotification i) in
  requests w' = requests w ++
    [run_update {| u_table := "notifications";
                   u_set := [("is_read", VBool true)];
                   u_eq := [("id", VNum (id notif))] |}] /\
  tasks w' = tasks w ++
    [Some (handleMarkNotificationAsRead (props w) (id notif))] /\
  localNotifications w' = localNotifications w /\
  view w' = view w.
Proof.
  intros Hm Hv Hi Hp w'. subst w'.
  rewrite (click_notification w i notif Hm Hv Hi Hp). repeat split.
Qed.

Lemma click_sends_update_and_waits_witness :
  let w := step (loaded a_table) ClickBell in
  (is_mounted w = true /\ visible w = true /\
   shown_notifications (props w) (localNotifications w) !! 1%nat
   = Some (a_notification 5 false "2024-01-02T09:00:00") /\
   markNotificationAsRead (props w) = None) /\
  badge (view (step w (ClickNotification 1))) = Some 3%nat.
Proof.
  split; [repeat split; vm_compute; reflexivity|].
  assert (H1 : is_mounted (step (loaded a_table) ClickBell) = true)
    by (vm_compute; reflexivity).
  assert (H2 : visible (step (loaded a_table) ClickBell) = true)
    by (vm_compute; reflexivity).
  assert (H3 : shown_notifications (props (step (loaded a_table) ClickBell))
                 (localNotifications (step (loaded a_table) ClickBell)) !! 1%nat
               = Some (a_notification 5 false "2024-01-02T09:00:00"))
    by (vm_compute; reflexivity).
  assert (H4 : markNotificationAsRead (props (step (loaded a_table) ClickBell))
               = None) by (vm_compute; reflexivity).
  destruct (click_sends_update_and_waits _ 1 _ H1 H2 H3 H4) as (_ & _ & _ & Hview).
  rewrite Hview. vm_compute. reflexivity.
Defined.

(** X6.  With an external mark-read function the click is handed over
    entirely: the function is called with the clicked id, no update is
    sent, and when its promise settles nothing is logged and the local
    list is as before. *)
Theorem mark_read_is_delegated (w : World) (i : nat) (notif : Notification)
    (fn : ParentFn) :
  is_mounted w = true ->
  visible w = true ->
  shown_notifications (props w) (localNotifications w) !! i = Some notif ->
  markNotificationAsRead (props w) = Some fn ->
  let call := handleMarkNotificationAsRead (props w) (id notif) in
  let w1 := step w (ClickNotification i) in
  requests w1 = requests w ++ [external_markNotificationAsRead fn (id notif)] /\
  tasks w1 = tasks w ++ [Some call] /\
  localNotifications w1 = localNotifications w /\
  forall w2 j,
    tasks w2 !! j = Some (Some call) ->
    let w3 := step w2 (Resolve j ok) in
    requests w3 = requests w2 /\
    console w3 = console w2 /\
    localNotifications w3 = localNotifications w2 /\
    tasks w3 !! j = Some None.
Proof.
  intros Hm Hv Hi Hp call w1. subst call w1.
  split; [|split; [|split]].
  1-3: cbn [step]; unfold view, render, dropdown; fold (visible w);
       rewrite Hv, Hi, Hm; unfold handleMarkNotificationAsRead; rewrite Hp;
       reflexivity.
  intros w2 j Hj w3. subst w3. cbn [step].
  assert (Hlt : (j < length (tasks w2))%nat) by (eapply lookup_lt_Some; eassumption).
  unfold handleMarkNotificationAsRead in Hj. rewrite Hp in Hj. cbn in Hj.
  erewrite resolve_await; [|exact Hj|reflexivity].
  cbn. repeat split. apply list_lookup_insert_eq. exact Hlt.
Qed.

Lemma mark_read_is_delegated_witness :
  let p := {| role := admin; notifications := Some an_external_list;
              toggleNotifications := None;
              markNotificationAsRead := Some (parent_fn 2);
              showNotifications := Some true |} in
  let w := run init [Mount p] in
  (is_mounted w = true /\ visible w = true /\
   shown_notifications (props w) (localNotifications w) !! 0%nat
   = Some (a_notification 4 false "2024-01-04T09:00:00") /\
   markNotificationAsRead (props w) = Some (parent_fn 2)) /\
  requests (step w (ClickNotification 0))
  = [external_markNotificationAsRead (parent_fn 2) 4].
Proof.
  split; [repeat split|].
  exact (proj1 (mark_read_is_delegated
    (run init [Mount {| role := admin; notifications := Some an_external_list;
                        toggleNotifications := None;
                        markNotificationAsRead := Some (parent_fn 2);
                        showNotifications := Some true |}])
    0 (a_notification 4 false "2024-01-04T09:00:00") (parent_fn 2)
    eq_refl eq_refl eq_refl eq_refl)).
Defined.

Lemma filter_sublist {A} (f : A -> bool) (l : list A) :
  sublist (List.filter f l) l.
Proof.
  induction l as [|x l IH]; simpl; [constructor|].
  destruct (f x); [apply sublist_skip | apply sublist_cons]; exact IH.
Qed.

(** X7.  A successful mark-read touches nothing but the entries with the
    given id: every other entry stays, in the same order, and when no
    entry has the id (it was removed meanwhile) the list is unchanged. *)
Theorem mark_read_keeps_other_entries (w : World) (i : nat) (p : HeaderProps)
    (notificationId : Z) :
  is_mounted w = true ->
  markNotificationAsRead p = None ->
  tasks w !! i = Some (Some (handleMarkNotificationAsRead p notificationId)) ->
  let w' := step w (Resolve i ok) in
  (forall notif,
     In notif (localNotifications w') <->
     In notif (localNotifications w) /\ id notif <> notificationId) /\
  sublist (localNotifications w') (localNotifications w) /\
  (occurrences notificationId (localNotifications w) = 0%nat ->
   localNotifications w' = localNotifications w).
Proof.
  intros Hm Hp Hi w'.
  destruct (mark_read_success w i p notificationId Hm Hp Hi) as [Hl _].
  fold w' in Hl. rewrite Hl. split; [|split].
  - intros notif. rewrite filter_In, negb_true_iff, Z.eqb_neq. reflexivity.
  - apply filter_sublist.
  - unfold occurrences. generalize (localNotifications w) as l.
    induction l as [|n l IH]; simpl; [reflexivity|].
    destruct (Z.eqb (id n) notificationId); simpl; [discriminate|].
    intros H. rewrite IH by exact H. reflexivity.
Qed.

Lemma mark_read_keeps_other_entries_witness :
  let w := run (loaded a_table) [ClickBell; ClickNotification 1] in
  (is_mounted w = true /\ markNotificationAsRead init_props = None /\
   tasks w !! 1%nat = Some (Some (handleMarkNotificationAsRead init_props 5))) /\
  In (a_notification 4 false "2024-01-04T09:00:00")
     (localNotifications (step w (Resolve 1 ok))).
Proof.
  split; [repeat split; vm_compute; reflexivity|].
  apply (proj1 (mark_read_keeps_other_entries
    (run (loaded a_table) [ClickBell; ClickNotification 1]) 1 init_props 5
    eq_refl eq_refl eq_refl)).
  split; [vm_compute; left; reflexivity | vm_compute; discriminate].
Defined.

(** ** The bell *)

(** X8.  A click on the bell is a display matter only: it sends nothing,
    starts nothing and leaves the list and the channels alone.  With an
    external toggle it calls that function once and keeps the local flag;
    without one it flips the local flag and calls nobody. *)
Theorem bell_click_is_display_only (w : World) :
  is_mounted w = true ->
  let w' := step w ClickBell in
  (requests w' = requests w /\ tasks w' = tasks w /\ channels w' = channels w /\
   console w' = console w /\ router w' = router w /\
   localNotifications w' = localNotifications w) /\
  match toggleNotifications (props w) with
  | Some fn =>
      parent_calls w' = parent_calls w ++ [fn] /\
      localShowNotifications w' = localShowNotifications w
  | None =>
      parent_calls w' = parent_calls w /\
      localShowNotifications w' = negb (localShowNotifications w)
  end.
Proof.
  intros Hm w'. subst w'. cbn [step]. rewrite Hm.
  unfold handleToggleNotifications.
  destruct (toggleNotifications (props w)) as [fn|];
    cbn [perform_all foldl perform]; rewrite ?Hm; repeat split.
Qed.

Lemma bell_click_is_display_only_witness :
  let p := {| role := user_role; notifications := None;
              toggleNotifications := Some (parent_fn 1);
              markNotificationAsRead := None; showNotifications := None |} in
  let w := run init [Mount p] in
  is_mounted w = true /\
  requests (step w ClickBell) = [getSession] /\
  localNotifications (step w ClickBell) = [].
Proof.
  split; [reflexivity|].
  destruct (bell_click_is_display_only
    (run init [Mount {| role := user_role; notifications := None;
                        toggleNotifications := Some (parent_fn 1);
                        markNotificationAsRead := None;
                        showNotifications := None |}]) eq_refl)
    as ((Hr & _ & _ & _ & _ & Hl) & _).
  split; [exact Hr | exact Hl].
Defined.

(** ** Realtime inserts pile up *)

(** X9.  Realtime inserts are only ever prepended: after any run of
    insert events on the component's channel the local list is those
    rows, newest first, in front of what was there.  Nothing is dropped:
    the limit of 10 binds the fetch, not the list, and a row delivered
    twice is listed twice. *)
Theorem realtime_inserts_accumulate (rows : list Row) (w : World) (c : nat)
    (session : Session) :
  is_mounted w = true ->
  channels w !! c = Some (notifications_channel session) ->
  let w' := run w (RealtimeInsert c <$> rows) in
  localNotifications w'
  = reverse (as_Notification <$> rows) ++ localNotifications w /\
  length (localNotifications w') = (length rows + length (localNotifications w))%nat /\
  requests w' = requests w /\
  channels w' = channels w.
Proof.
  revert w. induction rows as [|row rows IH]; intros w Hm Hc w'; subst w'.
  - repeat split.
  - rewrite fmap_cons.
    change (run w (RealtimeInsert c row :: (RealtimeInsert c <$> rows)))
      with (run (step w (RealtimeInsert c row)) (RealtimeInsert c <$> rows)).
    rewrite (realtime_insert_prepends w c session row Hm Hc).
    set (w1 := with_component _ _ _ _ _ w).
    destruct (IH w1) as (Hl & Hlen & Hr & Hch); [exact Hm | exact Hc |].
    split; [|split; [|split]].
    + rewrite Hl. subst w1. cbn [localNotifications with_component].
      rewrite fmap_cons, reverse_cons, <- app_assoc. reflexivity.
    + rewrite Hlen. subst w1. cbn [localNotifications with_component length].
      lia.
    + rewrite Hr. reflexivity.
    + rewrite Hch. reflexivity.
Qed.

Lemma realtime_inserts_accumulate_witness :
  let w := loaded a_table in
  let row := a_row "u1" 9 false "2024-02-01T09:00:00" in
  (is_mounted w = true /\
   channels w !! 0%nat = Some (notifications_channel a_session)) /\
  length (localNotifications (run w (RealtimeInsert 0 <$> replicate 8 row)))
  = 11%nat.
Proof.
  split; [split; vm_compute; reflexivity|].
  destruct (realtime_inserts_accumulate
              (replicate 8 (a_row "u1" 9 false "2024-02-01T09:00:00"))
              (loaded a_table) 0 a_session) as (_ & Hlen & _).
  - vm_compute; reflexivity.
  - vm_compute; reflexivity.
  - rewrite Hlen. vm_compute. reflexivity.
Defined.

(** ** The badge after the initial fetch *)

Lemma unread_of_length uid table :
  length (run_query (unread_of uid) table)
  = Nat.min 10
      (length (List.filter
                 (fun row => String.eqb (user_id row) uid
                             && negb (is_read (as_Notification row)))
                 table)).
Proof.
  unfold run_query, unread_of; cbn [q_eq q_order q_limit].
  rewrite length_take, sort_rows_length. f_equal. f_equal.
  apply filter_ext. intros row. unfold matches. cbn [forallb fst snd].
  rewrite column_user_id, column_is_read. cbn.
  destruct (is_read (as_Notification row)); cbn;
    rewrite ?andb_true_r, ?andb_false_r; reflexivity.
Qed.

(** X10.  In local mode, once the initial fetch has succeeded the badge
    counts the signed-in user's unread rows, capped at 10, and is absent
    when there are none. *)
Theorem badge_after_fetch (w : World) (i c : nat) (session : Session)
    (table : list Row) :
  is_mounted w = true ->
  notifications (props w) = None ->
  tasks w !! i = Some (Some (initialize_awaits c (fetch_awaits_rows session))) ->
  let unread :=
    List.filter (fun row => String.eqb (user_id row) (user_ident (user session))
                            && negb (is_read (as_Notification row))) table in
  let n := Nat.min 10 (length unread) in
  badge (view (step w (Resolve i (rows_of table))))
  = if (0 <? n)%nat then Some n else None.
Proof.
  intros Hm Hn Hi unread n.
  destruct (resolve_fetch w i c session (rows_of table) _ Hi eq_refl)
    as ([Hl _] & _ & _ & _ & Hp & _).
  unfold view, render, badge, shown_notifications.
  rewrite Hp, Hn, (Hl Hm). cbn [or_else data].
  rewrite length_fmap, unread_of_length. reflexivity.
Qed.

Lemma badge_after_fetch_witness :
  let w := run init [Mount init_props; Resolve 0 (session_is (Some a_session));
                     Resolve 0 (session_is (Some a_session))] in
  (is_mounted w = true /\ notifications (props w) = None /\
   tasks w !! 0%nat
   = Some (Some (initialize_awaits 0 (fetch_awaits_rows a_session)))) /\
  badge (view (step w (Resolve 0 (rows_of a_table)))) = Some 3%nat.
Proof.
  split; [repeat split; vm_compute; reflexivity|].
  rewrite (badge_after_fetch
    (run init [Mount init_props; Resolve 0 (session_is (Some a_session));
               Resolve 0 (session_is (Some a_session))])
    0 0 a_session a_table eq_refl eq_refl eq_refl).
  vm_compute. reflexivity.
Defined.

(** ** Logout and the rest of the header *)

(** X11.  Logging out does not tidy up: when the sign-out settles, with
    success or error, the realtime channels are still open, the local
    list and the dropdown flag are as before and no further request is
    sent; the call only navigates. *)
Theorem logout_leaves_notifications_alone (w : World) (i : nat) (x : Response)
    (outcome : option SbError) :
  tasks w !! i = Some (Some handleLogout) ->
  accept signOut x = Some outcome ->
  let w' := step w (Resolve i x) in
  channels w' = channels w /\
  localNotifications w' = localNotifications w /\
  localShowNotifications w' = localShowNotifications w /\
  requests w' = requests w /\
  phase w' = phase w.
Proof.
  intros Hi Hx w'. subst w'. cbn [step].
  unfold handleLogout in Hi. cbn in Hi.
  rewrite (resolve_await _ _ _ _ _ _ Hi Hx).
  destruct outcome as [err|]; cbn; repeat split.
Qed.

Lemma logout_leaves_notifications_alone_witness :
  let w := step (loaded a_table) ClickLogout in
  (tasks w !! 1%nat = Some (Some handleLogout) /\
   accept signOut ok = Some None) /\
  channels (step w (Resolve 1 ok)) !! 0%nat
  = Some (notifications_channel a_session).
Proof.
  split; [split; vm_compute; reflexivity|].
  destruct (logout_leaves_notifications_alone
              (step (loaded a_table) ClickLogout) 1 ok None eq_refl eq_refl)
    as (Hc & _).
  rewrite Hc. vm_compute. reflexivity.
Defined.


(** ** Activation with a session *)




